(** * AudioManager: a shallow embedding of [src/utils/AudioManager.js]

    The class owns the microphone capture session of the sketches, reduces
    each frequency snapshot of the analyser to one smoothed volume and keeps
    a rolling window of statistics.

    Conventions of the embedding.
    - JavaScript numbers are modelled by exact numbers: [Q] for volumes and
      [Z] for integer-valued quantities (timestamps in milliseconds, the
      sample counter).  This embedding carries the properties of order,
      range and state.  What depends on how a result is rounded is stated
      on the module [Double], which embeds the numeric path of the class
      in IEEE-754 binary64.
    - A method is a computation of type [Js A]: it takes the state (the
      platform [World] and the fields of [this]) and gives back a
      [completion] (normal return or thrown exception) with the new state.
      Mutations made before a [throw] stay in the state, as in JavaScript.
    - What the platform decides (whether a call throws, how many tracks a
      granted stream carries, the clock, the analyser's bytes) is passed to
      the method as an explicit environment record.
    - An [async] method runs to completion before the next one starts: the
      interleaving of pending promises is not modelled. *)

From Stdlib Require Import ZArith QArith Qminmax Qpower Qabs Lqa Lia.
From Stdlib Require Import Strings.Byte Floats.SpecFloat.
From stdpp Require Import base list strings.

(** ** Platform objects *)

(** Exceptions a platform call may raise.  [TypeError] is also what reading
    a property of [undefined] or [null] raises. *)
Inductive exn : Set :=
| NotSupportedError
| NotAllowedError
| NotFoundError
| NotReadableError
| InvalidStateError
| TypeError.

(** [MediaStreamTrack.readyState]. *)
Inductive readyState : Set := live | ended.

(** [AudioContext.state]. *)
Inductive AudioContextState : Set := running | closed.

Record AnalyserNode : Set := {
  fftSize : N;
  smoothingTimeConstant : Q;
  minDecibels : Q;
  maxDecibels : Q
}.

(** [frequencyBinCount] is half the transform size. *)
Definition frequencyBinCount (a : AnalyserNode) : nat :=
  N.to_nat (fftSize a / 2).

(** What [audioContext.createAnalyser()] returns before it is configured
    (the defaults of the Web Audio API). *)
Definition createAnalyser_default : AnalyserNode :=
  {| fftSize := 2048; smoothingTimeConstant := 0.8;
     minDecibels := -100; maxDecibels := -30 |}.

(** A [MediaStreamAudioSourceNode]: the stream it reads (a handle into the
    world's stream table) and whether it feeds the analyser. *)
Record SourceNode : Set := {
  mediaStream : nat;
  connected : bool
}.

(** Lines written to the console. *)
Inductive console_msg : Set :=
| log_context_created
| log_analyser_configured
| log_initialized
| error_initialize (e : exn)
| log_stream_obtained
| log_started
| error_start (e : exn)
| log_stopped
| error_stop (e : exn)
| log_metrics (currentVolume peak average : Q) (samples : Z) (active : bool).

(** The platform: every capture stream ever granted (a stream is the list
    of its tracks; a [MediaStream] reference is an index into [streams]),
    every audio context ever created, and the console. *)
Record World : Set := {
  streams : list (list readyState);
  contexts : list AudioContextState;
  console : list console_msg
}.

Definition set_streams (x : list (list readyState)) (w : World) : World :=
  {| streams := x; contexts := contexts w; console := console w |}.
Definition set_contexts (x : list AudioContextState) (w : World) : World :=
  {| streams := streams w; contexts := x; console := console w |}.
Definition set_console (x : list console_msg) (w : World) : World :=
  {| streams := streams w; contexts := contexts w; console := x |}.

(** [MediaStream.active]: some track has not ended. *)
Definition stream_active (ts : list readyState) : bool :=
  existsb (fun t => match t with live => true | ended => false end) ts.

(** The streams of the world that still capture. *)
Definition active_streams (w : World) : list nat :=
  filter (fun h => stream_active (default [] (streams w !! h)) = true)
         (seq 0 (length (streams w))).

(** ** The fields of the class *)

Record Metrics : Set := {
  lastUpdate : Z;
  updateInterval : Z;
  peakVolume : Q;
  averageVolume : Q;
  sampleCount : Z;
  volumeSum : Q
}.

Record AudioManager : Set := {
  initialized : bool;
  isActive : bool;
  audioContext : option nat;
  analyser : option AnalyserNode;
  microphone : option SourceNode;
  volumeSmoothing : Q;
  prevVolume : Q;
  stream : option nat;
  metrics : Metrics
}.

(** [constructor()] *)
Definition constructor : AudioManager :=
  {| initialized := false;
     isActive := false;
     audioContext := None;
     analyser := None;
     microphone := None;
     volumeSmoothing := 0.8;
     prevVolume := 0;
     stream := None;
     metrics := {| lastUpdate := 0; updateInterval := 1000;
                   peakVolume := 0; averageVolume := 0;
                   sampleCount := 0; volumeSum := 0 |} |}.

Definition set_initialized (x : bool) (m : AudioManager) : AudioManager :=
  {| initialized := x; isActive := isActive m;
     audioContext := audioContext m; analyser := analyser m;
     microphone := microphone m; volumeSmoothing := volumeSmoothing m;
     prevVolume := prevVolume m; stream := stream m; metrics := metrics m |}.
Definition set_isActive (x : bool) (m : AudioManager) : AudioManager :=
  {| initialized := initialized m; isActive := x;
     audioContext := audioContext m; analyser := analyser m;
     microphone := microphone m; volumeSmoothing := volumeSmoothing m;
     prevVolume := prevVolume m; stream := stream m; metrics := metrics m |}.
Definition set_audioContext (x : option nat) (m : AudioManager) : AudioManager :=
  {| initialized := initialized m; isActive := isActive m;
     audioContext := x; analyser := analyser m;
     microphone := microphone m; volumeSmoothing := volumeSmoothing m;
     prevVolume := prevVolume m; stream := stream m; metrics := metrics m |}.
Definition set_analyser (x : option AnalyserNode) (m : AudioManager) : AudioManager :=
  {| initialized := initialized m; isActive := isActive m;
     audioContext := audioContext m; analyser := x;
     microphone := microphone m; volumeSmoothing := volumeSmoothing m;
     prevVolume := prevVolume m; stream := stream m; metrics := metrics m |}.
Definition set_microphone (x : option SourceNode) (m : AudioManager) : AudioManager :=
  {| initialized := initialized m; isActive := isActive m;
     audioContext := audioContext m; analyser := analyser m;
     microphone := x; volumeSmoothing := volumeSmoothing m;
     prevVolume := prevVolume m; stream := stream m; metrics := metrics m |}.
Definition set_prevVolume (x : Q) (m : AudioManager) : AudioManager :=
  {| initialized := initialized m; isActive := isActive m;
     audioContext := audioContext m; analyser := analyser m;
     microphone := microphone m; volumeSmoothing := volumeSmoothing m;
     prevVolume := x; stream := stream m; metrics := metrics m |}.
Definition set_stream (x : option nat) (m : AudioManager) : AudioManager :=
  {| initialized := initialized m; isActive := isActive m;
     audioContext := audioContext m; analyser := analyser m;
     microphone := microphone m; volumeSmoothing := volumeSmoothing m;
     prevVolume := prevVolume m; stream := x; metrics := metrics m |}.
Definition set_metrics (x : Metrics) (m : AudioManager) : AudioManager :=
  {| initialized := initialized m; isActive := isActive m;
     audioContext := audioContext m; analyser := analyser m;
     microphone := microphone m; volumeSmoothing := volumeSmoothing m;
     prevVolume := prevVolume m; stream := stream m; metrics := x |}.

(** ** Computations with state and exceptions *)

Definition St : Set := World * AudioManager.

Inductive completion (A : Type) : Type :=
| Normal (a : A)
| Throw (e : exn).
Arguments Normal {A} a.
Arguments Throw {A} e.

Definition Js (A : Type) : Type := St -> completion A * St.

Definition ret {A} (a : A) : Js A := fun st => (Normal a, st).

Definition throw {A} (e : exn) : Js A := fun st => (Throw e, st).

Definition bind {A B} (m : Js A) (k : A -> Js B) : Js B :=
  fun st =>
    match m st with
    | (Normal a, st') => k a st'
    | (Throw e, st') => (Throw e, st')
    end.

(** [try { m } catch (error) { h error }] *)
Definition try_catch {A} (m : Js A) (h : exn -> Js A) : Js A :=
  fun st =>
    match m st with
    | (Normal a, st') => (Normal a, st')
    | (Throw e, st') => h e st'
    end.

Notation "'let!' x ':=' m 'in' k" := (bind m (fun x => k))
  (at level 10, x name, m at level 100, k at level 200).
Notation "m '>>' k" := (bind m (fun _ => k))
  (at level 100, k at level 200, right associativity).

(** Reading [this] and assigning to one of its fields. *)
Definition this : Js AudioManager := fun st => (Normal (snd st), st).

Definition assign (f : AudioManager -> AudioManager) : Js unit :=
  fun st => (Normal tt, (fst st, f (snd st))).

Definition world : Js World := fun st => (Normal (fst st), st).

Definition platform (f : World -> World) : Js unit :=
  fun st => (Normal tt, (f (fst st), snd st)).

Definition console_write (c : console_msg) : Js unit :=
  platform (fun w => set_console (console w ++ [c]) w).

(** A platform call that either throws what the environment says or
    returns. *)
Definition may_throw (r : option exn) : Js unit :=
  match r with
  | Some e => throw e
  | None => ret tt
  end.

(** The completion and the final state of a run. *)
Definition outcome {A} (r : completion A * St) : completion A := fst r.
Definition final {A} (r : completion A * St) : AudioManager := snd (snd r).
Definition final_world {A} (r : completion A * St) : World := fst (snd r).

(** ** Rolling metrics *)

Definition set_lastUpdate (x : Z) (r : Metrics) : Metrics :=
  {| lastUpdate := x; updateInterval := updateInterval r;
     peakVolume := peakVolume r; averageVolume := averageVolume r;
     sampleCount := sampleCount r; volumeSum := volumeSum r |}.
Definition set_peakVolume (x : Q) (r : Metrics) : Metrics :=
  {| lastUpdate := lastUpdate r; updateInterval := updateInterval r;
     peakVolume := x; averageVolume := averageVolume r;
     sampleCount := sampleCount r; volumeSum := volumeSum r |}.
Definition set_averageVolume (x : Q) (r : Metrics) : Metrics :=
  {| lastUpdate := lastUpdate r; updateInterval := updateInterval r;
     peakVolume := peakVolume r; averageVolume := x;
     sampleCount := sampleCount r; volumeSum := volumeSum r |}.
Definition set_sampleCount (x : Z) (r : Metrics) : Metrics :=
  {| lastUpdate := lastUpdate r; updateInterval := updateInterval r;
     peakVolume := peakVolume r; averageVolume := averageVolume r;
     sampleCount := x; volumeSum := volumeSum r |}.
Definition set_volumeSum (x : Q) (r : Metrics) : Metrics :=
  {| lastUpdate := lastUpdate r; updateInterval := updateInterval r;
     peakVolume := peakVolume r; averageVolume := averageVolume r;
     sampleCount := sampleCount r; volumeSum := x |}.

(** [this.metrics.f = ...]: the metrics object is mutated in place. *)
Definition assign_metrics (f : Metrics -> Metrics) : Js unit :=
  assign (fun m => set_metrics (f (metrics m)) m).

(** [updateMetrics(volume)]; [now] is what [Date.now()] returns. *)
Definition updateMetrics (now : Z) (volume : Q) : Js unit :=
  assign_metrics (fun r => set_peakVolume (Qmax (peakVolume r) volume) r) >>
  assign_metrics (fun r => set_volumeSum (volumeSum r + volume) r) >>
  assign_metrics (fun r => set_sampleCount (sampleCount r + 1) r) >>
  let! t := this in
  if (now - lastUpdate (metrics t) >=? updateInterval (metrics t))%Z then
    assign_metrics (fun r =>
      set_averageVolume (volumeSum r / inject_Z (sampleCount r)) r) >>
    let! t := this in
    console_write (log_metrics volume (peakVolume (metrics t))
                     (averageVolume (metrics t)) (sampleCount (metrics t))
                     (isActive t)) >>
    assign_metrics (set_lastUpdate now) >>
    assign_metrics (set_peakVolume volume) >>
    assign_metrics (set_volumeSum volume) >>
    assign_metrics (set_sampleCount 1)
  else ret tt.

(** ** The volume query *)

(** The object [getAudioData] returns.  On the inert path the object has no
    [metrics] property: [metrics_field] is [None].  (The source returns the
    metrics object itself, not a copy; the embedding returns its value at
    the time of the call.) *)
Record AudioData : Set := {
  volume : Q;
  frequencyData : option (list byte);
  metrics_field : option Metrics
}.

(** What one animation frame gets from the platform: the bytes the analyser
    holds and the clock. *)
Record FrameEnv : Set := {
  byteFrequencyData : list byte;
  frame_now : Z
}.

(** [new Uint8Array(n)] filled by [analyser.getByteFrequencyData]: the
    array keeps its length [n]; bytes beyond it are dropped and missing
    ones stay 0. *)
Definition getByteFrequencyData (n : nat) (data : list byte) : list byte :=
  take n (data ++ replicate (n - length data) x00).

(** [frequencyData.reduce((acc, val) => acc + val, 0)] *)
Definition reduce_sum (frequencyData : list byte) : Z :=
  fold_left (fun acc val => acc + Z.of_N (Byte.to_N val))%Z frequencyData 0%Z.

(** [sum / frequencyData.length / 255] *)
Definition rawVolume_of (frequencyData : list byte) : Q :=
  inject_Z (reduce_sum frequencyData)
  / inject_Z (Z.of_nat (length frequencyData)) / 255.

Definition getAudioData (env : FrameEnv) : Js AudioData :=
  let! t := this in
  match isActive t, analyser t with
  | true, Some an =>
      let frequencyData :=
        getByteFrequencyData (frequencyBinCount an) (byteFrequencyData env) in
      let rawVolume := rawVolume_of frequencyData in
      assign (fun m =>
        set_prevVolume (prevVolume m * volumeSmoothing m
                        + rawVolume * (1 - volumeSmoothing m)) m) >>
      let! t := this in
      updateMetrics (frame_now env) (prevVolume t) >>
      let! t := this in
      ret {| volume := prevVolume t;
             frequencyData := Some frequencyData;
             metrics_field := Some (metrics t) |}
  | _, _ =>
      ret {| volume := 0; frequencyData := None; metrics_field := None |}
  end.

(** One call per animation frame, in order; the returned objects are
    collected. *)
Fixpoint getAudioData_frames (envs : list FrameEnv) (st : St)
  : list AudioData * St :=
  match envs with
  | [] => ([], st)
  | env :: envs' =>
      match getAudioData env st with
      | (Normal d, st') =>
          let (ds, st'') := getAudioData_frames envs' st' in (d :: ds, st'')
      | (Throw _, st') => ([], st')
      end
  end.

(** ** Lifecycle *)

(** What the platform answers during [initialize]. *)
Record InitEnv : Set := {
  new_AudioContext_error : option exn;
  createAnalyser_error : option exn
}.

(** [new AudioContext()]: a fresh running context, referenced by its
    index. *)
Definition new_AudioContext (env : InitEnv) : Js nat :=
  may_throw (new_AudioContext_error env) >>
  let! w := world in
  platform (fun w => set_contexts (contexts w ++ [running]) w) >>
  ret (length (contexts w)).

Definition createAnalyser (env : InitEnv) : Js AnalyserNode :=
  may_throw (createAnalyser_error env) >>
  ret createAnalyser_default.

(** [this.analyser.f = ...] *)
Definition assign_analyser (f : AnalyserNode -> AnalyserNode) : Js unit :=
  assign (fun m => set_analyser (f <$> analyser m) m).

Definition initialize (env : InitEnv) : Js unit :=
  let! t := this in
  if initialized t then ret tt else
  try_catch
    (let! ctx := new_AudioContext env in
     assign (set_audioContext (Some ctx)) >>
     console_write log_context_created >>
     let! an := createAnalyser env in
     assign (set_analyser (Some an)) >>
     assign_analyser (fun a =>
       {| fftSize := 1024;
          smoothingTimeConstant := smoothingTimeConstant a;
          minDecibels := minDecibels a; maxDecibels := maxDecibels a |}) >>
     assign_analyser (fun a =>
       {| fftSize := fftSize a; smoothingTimeConstant := 0.8;
          minDecibels := minDecibels a; maxDecibels := maxDecibels a |}) >>
     assign_analyser (fun a =>
       {| fftSize := fftSize a;
          smoothingTimeConstant := smoothingTimeConstant a;
          minDecibels := -85; maxDecibels := maxDecibels a |}) >>
     assign_analyser (fun a =>
       {| fftSize := fftSize a;
          smoothingTimeConstant := smoothingTimeConstant a;
          minDecibels := minDecibels a; maxDecibels := -10 |}) >>
     console_write log_analyser_configured >>
     assign (set_initialized true) >>
     console_write log_initialized)
    (fun error =>
     console_write (error_initialize error) >>
     throw error).

(** What the platform answers during [stopMicrophone]: whether [stop()]
    throws on the track at a given position of the stream, and whether
    [disconnect()] throws. *)
Record StopEnv : Set := {
  track_stop_error : nat -> option exn;
  disconnect_error : option exn
}.

(** [tracks.forEach((track) => track.stop())], from position [i] on: the
    tracks before the first throwing [stop()] end, the rest are left. *)
Fixpoint forEach_stop (err : nat -> option exn) (i : nat)
    (tracks : list readyState) : option exn * list readyState :=
  match tracks with
  | [] => (None, [])
  | track :: rest =>
      match err i with
      | Some e => (Some e, track :: rest)
      | None =>
          let (r, rest') := forEach_stop err (S i) rest in
          (r, ended :: rest')
      end
  end.

(** [this.stream.getTracks().forEach((track) => track.stop())] *)
Definition stop_tracks (env : StopEnv) (h : nat) : Js unit :=
  let! w := world in
  let (r, tracks') :=
    forEach_stop (track_stop_error env) 0 (default [] (streams w !! h)) in
  platform (fun w => set_streams (<[h := tracks']> (streams w)) w) >>
  may_throw r.

(** [this.microphone.disconnect()] *)
Definition disconnect (env : StopEnv) : Js unit :=
  may_throw (disconnect_error env) >>
  assign (fun m =>
    set_microphone
      ((fun node => {| mediaStream := mediaStream node; connected := false |})
         <$> microphone m) m).

Definition stopMicrophone (env : StopEnv) : Js unit :=
  let! t := this in
  if negb (isActive t) then ret tt else
  try_catch
    ((match stream t with
      | Some h => stop_tracks env h >> assign (set_stream None)
      | None => ret tt
      end) >>
     let! t := this in
     (match microphone t with
      | Some _ => disconnect env >> assign (set_microphone None)
      | None => ret tt
      end) >>
     assign (set_isActive false) >>
     console_write log_stopped)
    (fun error =>
     console_write (error_stop error) >>
     throw error).

(** What the platform answers during [startMicrophone]. *)
Record StartEnv : Set := {
  init_env : InitEnv;
  (** for the [stopMicrophone] that opens the [try] block *)
  stop_env : StopEnv;
  (** [getUserMedia]: rejected, or granted with that many live audio
      tracks *)
  getUserMedia_result : exn + nat;
  createMediaStreamSource_error : option exn;
  connect_error : option exn;
  start_now : Z;
  (** for the [stopMicrophone] of the [catch] block *)
  catch_env : StopEnv
}.

(** [await navigator.mediaDevices.getUserMedia({ audio: ... })] *)
Definition getUserMedia (env : StartEnv) : Js nat :=
  match getUserMedia_result env with
  | inl e => throw e
  | inr n =>
      let! w := world in
      platform (fun w => set_streams (streams w ++ [replicate n live]) w) >>
      ret (length (streams w))
  end.

(** [this.stream.getAudioTracks()[0]] and the reads of its properties for
    the log line: reading [label] of [undefined] throws. *)
Definition read_audioTrack (h : nat) : Js unit :=
  let! w := world in
  match default [] (streams w !! h) with
  | [] => throw TypeError
  | _ :: _ => ret tt
  end.

(** [this.audioContext.createMediaStreamSource(this.stream)] *)
Definition createMediaStreamSource (env : StartEnv) (h : nat) : Js SourceNode :=
  let! t := this in
  match audioContext t with
  | None => throw TypeError
  | Some _ =>
      may_throw (createMediaStreamSource_error env) >>
      ret {| mediaStream := h; connected := false |}
  end.

(** [this.microphone.connect(this.analyser)] *)
Definition connect (env : StartEnv) : Js unit :=
  may_throw (connect_error env) >>
  assign (fun m =>
    set_microphone
      ((fun node => {| mediaStream := mediaStream node; connected := true |})
         <$> microphone m) m).

(** The metrics object [startMicrophone] installs. *)
Definition fresh_metrics (now : Z) : Metrics :=
  {| lastUpdate := now; updateInterval := 1000;
     peakVolume := 0; averageVolume := 0;
     sampleCount := 0; volumeSum := 0 |}.

Definition startMicrophone (env : StartEnv) : Js unit :=
  let! t := this in
  (if negb (initialized t) then initialize (init_env env) else ret tt) >>
  try_catch
    (stopMicrophone (stop_env env) >>
     let! h := getUserMedia env in
     assign (set_stream (Some h)) >>
     read_audioTrack h >>
     console_write log_stream_obtained >>
     let! node := createMediaStreamSource env h in
     assign (set_microphone (Some node)) >>
     connect env >>
     assign (set_isActive true) >>
     assign (set_metrics (fresh_metrics (start_now env))) >>
     console_write log_started)
    (fun error =>
     console_write (error_start error) >>
     stopMicrophone (catch_env env) >>
     throw error).

(** [this.audioContext.close()] *)
Definition close (c : nat) : Js unit :=
  platform (fun w => set_contexts (<[c := closed]> (contexts w)) w).

(** [cleanup()].  The promise of [stopMicrophone] is not awaited: when it
    rejects, [cleanup] goes on. *)
Definition cleanup (env : StopEnv) : Js unit :=
  try_catch (stopMicrophone env) (fun _ => ret tt) >>
  let! t := this in
  (match audioContext t with
   | Some c => close c >> assign (set_audioContext None)
   | None => ret tt
   end) >>
  assign (set_initialized false).

(** Platform answers with no failure. *)
Definition init_ok : InitEnv :=
  {| new_AudioContext_error := None; createAnalyser_error := None |}.

Definition stop_ok : StopEnv :=
  {| track_stop_error := fun _ => None; disconnect_error := None |}.

(** The microphone is granted with one audio track at time [now]. *)
Definition start_ok (now : Z) : StartEnv :=
  {| init_env := init_ok; stop_env := stop_ok;
     getUserMedia_result := inr 1%nat;
     createMediaStreamSource_error := None; connect_error := None;
     start_now := now; catch_env := stop_ok |}.

(** A frame in which every bin of the analyser reads [b]. *)
Definition frame_const (b : byte) (now : Z) : FrameEnv :=
  {| byteFrequencyData := replicate 512 b; frame_now := now |}.

(** ** The states the program can be in *)

(** The page before the script runs, with a freshly constructed manager. *)
Definition initial_world : World :=
  {| streams := []; contexts := []; console := [] |}.

Definition initial : St := (initial_world, constructor).

(** One method call, with what the platform answers during it. *)
Inductive call : Set :=
| call_initialize (env : InitEnv)
| call_startMicrophone (env : StartEnv)
| call_stopMicrophone (env : StopEnv)
| call_getAudioData (env : FrameEnv)
| call_cleanup (env : StopEnv).

Definition step (c : call) (st : St) : St :=
  match c with
  | call_initialize env => snd (initialize env st)
  | call_startMicrophone env => snd (startMicrophone env st)
  | call_stopMicrophone env => snd (stopMicrophone env st)
  | call_getAudioData env => snd (getAudioData env st)
  | call_cleanup env => snd (cleanup env st)
  end.

(** The state after [initialize()] and after [startMicrophone()] on a page
    where nothing fails. *)
Definition initialized_state : St := step (call_initialize init_ok) initial.

Definition started_state (now : Z) : St :=
  step (call_startMicrophone (start_ok now)) initial.

(** The states reached from [initial] by method calls. *)
Inductive reachable : St -> Prop :=
| reachable_initial : reachable initial
| reachable_step c st : reachable st -> reachable (step c st).

(** ** Notions used in the statements *)

(** The arithmetic mean of the bins of a snapshot. *)
Definition bins_mean (bins : list byte) : Q :=
  inject_Z (foldr (fun b acc => Z.of_N (Byte.to_N b) + acc)%Z 0%Z bins)
  / inject_Z (Z.of_nat (length bins)).

(** The array [getAudioData] reads in a frame. *)
Definition snapshot (a : AnalyserNode) (env : FrameEnv) : list byte :=
  getByteFrequencyData (frequencyBinCount a) (byteFrequencyData env).

(** The session is inert: [!this.isActive || !this.analyser]. *)
Definition inert (m : AudioManager) : Prop :=
  isActive m = false \/ analyser m = None.

(** The constants of the class: the constructor sets them and no method
    assigns them another value. *)
Record configured (m : AudioManager) : Prop := {
  configured_smoothing : volumeSmoothing m = 0.8%Q;
  configured_interval : updateInterval (metrics m) = 1000%Z;
  configured_analyser :
    forall a, analyser m = Some a -> fftSize a = 1024%N
}.

(** The rolling window after one more sample [v] taken at time [now]. *)
Definition window (now : Z) (v : Q) (r : Metrics) : Metrics :=
  if (now - lastUpdate r >=? updateInterval r)%Z then
    {| lastUpdate := now; updateInterval := updateInterval r;
       peakVolume := v;
       averageVolume := (volumeSum r + v) / inject_Z (sampleCount r + 1);
       sampleCount := 1; volumeSum := v |}
  else
    {| lastUpdate := lastUpdate r; updateInterval := updateInterval r;
       peakVolume := Qmax (peakVolume r) v;
       averageVolume := averageVolume r;
       sampleCount := sampleCount r + 1; volumeSum := volumeSum r + v |}.

(** The line [updateMetrics] writes when a window closes. *)
Definition window_report (now : Z) (v : Q) (m : AudioManager) : list console_msg :=
  let r := metrics m in
  if (now - lastUpdate r >=? updateInterval r)%Z then
    [log_metrics v (Qmax (peakVolume r) v)
       ((volumeSum r + v) / inject_Z (sampleCount r + 1))
       (sampleCount r + 1) (isActive m)]
  else [].

(** The value [getAudioData] stores in [prevVolume] for a raw volume. *)
Definition smoothed (m : AudioManager) (rawVolume : Q) : Q :=
  prevVolume m * volumeSmoothing m + rawVolume * (1 - volumeSmoothing m).

(** The computation [c] keeps [P], whether it returns or throws. *)
Definition preserves (P : St -> Prop) {A} (c : Js A) : Prop :=
  forall st, P st -> P (snd (c st)).

(** The stored volume is [x]. *)
Definition prevVolume_is (x : Q) : St -> Prop :=
  fun st => prevVolume (snd st) = x.

(** A property of the fields of [this] alone. *)
Definition on_manager (Q : AudioManager -> Prop) : St -> Prop :=
  fun st => Q (snd st).

(** A platform on which every [stop()] and [disconnect()] throws. *)
Definition stop_failing : StopEnv :=
  {| track_stop_error := fun _ => Some InvalidStateError;
     disconnect_error := Some InvalidStateError |}.

(** The tracks the teardown of the session has to stop: those of the
    stream the manager holds. *)
Definition session_tracks (st : St) : list readyState :=
  match stream (snd st) with
  | Some h => default [] (streams (fst st) !! h)
  | None => []
  end.

(** The teardown of the session meets the failure [e] on this platform:
    the [stop()] of a track of the held stream throws [e] and no earlier
    one throws; or every [stop()] succeeds, a source node is held and its
    [disconnect()] throws [e]. *)
Definition teardown_fails (env : StopEnv) (st : St) (e : exn) : Prop :=
  (exists i,
     (i < length (session_tracks st))%nat /\
     track_stop_error env i = Some e /\
     forall j, (j < i)%nat -> track_stop_error env j = None)
  \/
  ((forall i, (i < length (session_tracks st))%nat ->
              track_stop_error env i = None) /\
   is_Some (microphone (snd st)) /\
   disconnect_error env = Some e).

(** A platform on which every [stop()] succeeds and [disconnect()]
    throws. *)
Definition stop_disconnect_fails : StopEnv :=
  {| track_stop_error := fun _ => None;
     disconnect_error := Some InvalidStateError |}.

(** The streams after a teardown that completes. *)
Definition released (m : AudioManager) (ss : list (list readyState))
  : list (list readyState) :=
  match stream m with
  | Some h => <[h := replicate (length (default [] (ss !! h))) ended]> ss
  | None => ss
  end.

(** The streams left by the teardown [startMicrophone] begins with. *)
Definition released_if_active (m : AudioManager) (ss : list (list readyState))
  : list (list readyState) :=
  if isActive m then released m ss else ss.

(** Stream [h] of the world still captures. *)
Definition capturing (w : World) (h : nat) : Prop :=
  exists tracks, streams w !! h = Some tracks /\ stream_active tracks = true.

(** No stream captures behind the manager's back: a capturing stream is
    the stream of the active session. *)
Definition no_leak (st : St) : Prop :=
  forall h, capturing (fst st) h ->
            isActive (snd st) = true /\ stream (snd st) = Some h.

(** The microphone is granted with one track, then
    [createMediaStreamSource] throws (as a browser does when it cannot
    feed the stream into the context). *)
Definition start_source_fails : StartEnv :=
  {| init_env := init_ok; stop_env := stop_ok;
     getUserMedia_result := inr 1%nat;
     createMediaStreamSource_error := Some NotSupportedError;
     connect_error := None; start_now := 7000; catch_env := stop_ok |}.

(** ** Notions used for the lifecycle as a whole *)

(** The analyser as [initialize] leaves it. *)
Definition configured_analyser_node : AnalyserNode :=
  {| fftSize := 1024; smoothingTimeConstant := 0.8;
     minDecibels := -85; maxDecibels := -10 |}.

(** What the flags of the manager promise about its references: an
    initialised manager holds a context and an analyser, and an active one
    holds an analyser. *)
Record wired (m : AudioManager) : Prop := {
  wired_context : initialized m = true -> is_Some (audioContext m);
  wired_analyser : initialized m = true -> is_Some (analyser m);
  wired_active : isActive m = true -> is_Some (analyser m)
}.

(** A teardown during which the platform raises nothing. *)
Definition quiet (env : StopEnv) : Prop :=
  (forall i, track_stop_error env i = None) /\ disconnect_error env = None.

(** A [startMicrophone] during which the platform raises nothing and
    grants a stream with at least one audio track. *)
Definition cooperative (env : StartEnv) : Prop :=
  new_AudioContext_error (init_env env) = None /\
  createAnalyser_error (init_env env) = None /\
  quiet (stop_env env) /\
  (exists n, getUserMedia_result env = inr (S n)) /\
  createMediaStreamSource_error env = None /\
  connect_error env = None.

(** The ranges the rolling metrics stay in. *)
Record metrics_ok (r : Metrics) : Prop := {
  metrics_peak : (0 <= peakVolume r <= 1)%Q;
  metrics_average : (0 <= averageVolume r <= 1)%Q;
  metrics_count : (0 <= sampleCount r)%Z;
  metrics_sum : (0 <= volumeSum r <= inject_Z (sampleCount r))%Q
}.

(** A run of method calls. *)
Definition steps (cs : list call) (st : St) : St :=
  fold_left (fun st c => step c st) cs st.


(** A platform without the audio capability: the context constructor
    throws. *)
Definition init_no_context : InitEnv :=
  {| new_AudioContext_error := Some NotSupportedError;
     createAnalyser_error := None |}.

(** The manager's references to the analysis graph and the contexts of
    the platform are [x]. *)
Definition graph_is
    (x : list AudioContextState * option nat * option AnalyserNode * bool)
  : St -> Prop :=
  fun st =>
    (contexts (fst st), audioContext (snd st), analyser (snd st),
     initialized (snd st)) = x.

(** The user refuses access to the microphone. *)
Definition start_denied (now : Z) : StartEnv :=
  {| init_env := init_ok; stop_env := stop_ok;
     getUserMedia_result := inl NotAllowedError;
     createMediaStreamSource_error := None; connect_error := None;
     start_now := now; catch_env := stop_ok |}.

(** A frame in which every bin reads 255, and one of silence. *)
Definition frame_loud (now : Z) : FrameEnv := frame_const xff now.

(** ** The sketches' handlers (sketches/sketch-04/sketch-04.js)

    The sketch keeps one manager and wires it to two buttons, to the
    animation loop and to the [unload] event of the window. *)

(** The [click] handler of "Start Microphone":
    [try { await audioManager.startMicrophone(); } catch (error) {
    console.error("Failed to start microphone:", error); }].  The line it
    writes is the one [startMicrophone] itself writes. *)
Definition onStartClick (env : StartEnv) : Js unit :=
  try_catch (startMicrophone env)
            (fun error => console_write (error_start error)).

(** The [click] handler of "Stop Microphone":
    [audioManager.stopMicrophone();], whose promise is dropped. *)
Definition onStopClick (env : StopEnv) : Js unit :=
  try_catch (stopMicrophone env) (fun _ => ret tt).

(** The [unload] handler: [audioManager.cleanup();]. *)
Definition onUnload (env : StopEnv) : Js unit := cleanup env.

(** The first two statements of the frame callback:
    [const audioData = audioManager.getAudioData();
     const volume = audioData.volume || 0;].
    The drawing that follows reads [volume] and does not touch the
    manager. *)
Definition frame_volume (env : FrameEnv) : Js Q :=
  let! audioData := getAudioData env in
  ret (if Qeq_bool (volume audioData) 0 then 0%Q else volume audioData).

(** What happens on the page. *)
Inductive event : Set :=
| start_click (env : StartEnv)
| stop_click (env : StopEnv)
| animation_frame (env : FrameEnv)
| unload (env : StopEnv).

(** The handler of an event; a frame gives the volume it read. *)
Definition handle (ev : event) : Js (option Q) :=
  match ev with
  | start_click env => onStartClick env >> ret None
  | stop_click env => onStopClick env >> ret None
  | animation_frame env => let! v := frame_volume env in ret (Some v)
  | unload env => onUnload env >> ret None
  end.

(** The events of a page in order, with the completion of each handler. *)
Fixpoint page (evs : list event) (st : St)
  : list (completion (option Q)) * St :=
  match evs with
  | [] => ([], st)
  | ev :: evs' =>
      let (r, st') := handle ev st in
      let (rs, st'') := page evs' st' in
      (r :: rs, st'')
  end.

(** A handler returned, and when it was a frame the volume it read is in
    [0,1]. *)
Definition handled (r : completion (option Q)) : Prop :=
  match r with
  | Normal None => True
  | Normal (Some v) => (0 <= v <= 1)%Q
  | Throw _ => False
  end.

(** What every handler keeps. *)
Definition page_invariant (st : St) : Prop :=
  configured (snd st) /\ (0 <= prevVolume (snd st) <= 1)%Q.

(** ** The bouncing agents (class [Agent])

    The class [Vector] is not among the sources; [Agent] only reads and
    writes its fields [x] and [y].  The constructor draws the radius and
    the velocity at random and [draw] only paints: neither is modelled. *)
Module Agent.

Record Vector : Set := { x : Q; y : Q }.

Record t : Set := { pos : Vector; radius : Q; vel : Vector }.

(** [update()] *)
Definition update (a : t) : t :=
  {| pos := {| x := x (pos a) + x (vel a); y := y (pos a) + y (vel a) |};
     radius := radius a;
     vel := vel a |}.

(** [bounce(width, height)] *)
Definition bounce (width height : Q) (a : t) : t :=
  let a1 :=
    if Qle_bool (x (pos a)) 0 || Qle_bool width (x (pos a)) then
      {| pos := pos a; radius := radius a;
         vel := {| x := x (vel a) * -1; y := y (vel a) |} |}
    else a in
  if Qle_bool (y (pos a1)) 0 || Qle_bool height (y (pos a1)) then
    {| pos := pos a1; radius := radius a1;
       vel := {| x := x (vel a1); y := y (vel a1) * -1 |} |}
  else a1.

(** What a frame of the sketch does to an agent:
    [agent.update(); agent.draw(context); agent.bounce(width, height);]. *)
Definition frame (width height : Q) (a : t) : t :=
  bounce width height (update a).

(** An agent after [n] frames. *)
Definition frames (n : nat) (width height : Q) (a : t) : t :=
  Nat.iter n (frame width height) a.

(** Along one axis of a canvas of extent [w]: the speed is [s], the
    position is at most one step outside, and an agent that is outside is
    heading back. *)
Definition near (w s p v : Q) : Prop :=
  (0 <= s /\ (v == s \/ v == - s) /\ - s <= p <= w + s /\
   (p < 0 -> v == s) /\ (w < p -> v == - s))%Q.

(** Along one axis: on the lower edge heading out with velocity [v0], or
    one step outside heading back. *)
Definition stuck (v0 p v : Q) : Prop :=
  ((p == 0 /\ v == v0) \/ (p == v0 /\ v == - v0))%Q.

End Agent.

(** An agent near the right edge of the 1080 x 1080 canvas, heading out
    to the right and down. *)
Definition agent_near_edge : Agent.t :=
  {| Agent.pos := {| Agent.x := 1079.5; Agent.y := 540 |};
     Agent.radius := 8;
     Agent.vel := {| Agent.x := 0.75; Agent.y := 0.5 |} |}.

(** An agent created on the left edge and heading out. *)
Definition agent_on_edge : Agent.t :=
  {| Agent.pos := {| Agent.x := 0; Agent.y := 540 |};
     Agent.radius := 8;
     Agent.vel := {| Agent.x := -0.5; Agent.y := 0.25 |} |}.

(** ** The grid of squares (sketches/sketch-01/sketch-01.js)

    The canvas context is modelled by what the sketch uses of it: the fill
    style, the current transform (the sketch only translates, so an
    offset), the current path (the sketch only adds rectangles, kept in
    canvas coordinates as the transform of the moment places them) and
    what was painted so far, oldest first.  [Math.random] is an oracle:
    the [k]-th draw of a render is [rnd k]. *)
Module Sketch01.

Local Open Scope Q_scope.

Record Rect : Set := { rect_x : Q; rect_y : Q; rect_w : Q; rect_h : Q }.

Inductive painted : Set :=
| fill (style : string) (r : Rect)
| stroke_path (rs : list Rect).

Record Context2D : Set := {
  fillStyle : string;
  origin : Q * Q;
  path : list Rect;
  paint : list painted
}.

(** The rectangle [(x, y, w, h)] of the current coordinate system, in
    canvas coordinates. *)
Definition place (o : Q * Q) (x y w h : Q) : Rect :=
  {| rect_x := fst o + x; rect_y := snd o + y; rect_w := w; rect_h := h |}.

Definition set_fillStyle (s : string) (c : Context2D) : Context2D :=
  {| fillStyle := s; origin := origin c; path := path c; paint := paint c |}.

Definition fillRect (x y w h : Q) (c : Context2D) : Context2D :=
  {| fillStyle := fillStyle c; origin := origin c; path := path c;
     paint := paint c ++ [fill (fillStyle c) (place (origin c) x y w h)] |}.

Definition translate (dx dy : Q) (c : Context2D) : Context2D :=
  {| fillStyle := fillStyle c;
     origin := (fst (origin c) + dx, snd (origin c) + dy);
     path := path c; paint := paint c |}.

Definition beginPath (c : Context2D) : Context2D :=
  {| fillStyle := fillStyle c; origin := origin c; path := [];
     paint := paint c |}.

Definition rect (x y w h : Q) (c : Context2D) : Context2D :=
  {| fillStyle := fillStyle c; origin := origin c;
     path := path c ++ [place (origin c) x y w h];
     paint := paint c |}.

Definition stroke (c : Context2D) : Context2D :=
  {| fillStyle := fillStyle c; origin := origin c; path := path c;
     paint := paint c ++ [stroke_path (path c)] |}.

(** The body of the inner loop, for column [i] and row [j]; the state is
    the context and the number of random draws made so far. *)
Definition cell (rnd : nat -> Q) (w h gap : Q) (i j : nat)
    (s : Context2D * nat) : Context2D * nat :=
  let (c, k) := s in
  let x := 100 + (w + gap) * inject_Z (Z.of_nat i) in
  let y := 100 + (h + gap) * inject_Z (Z.of_nat j) in
  let c := beginPath c in
  let c := rect x y w h c in
  let c :=
    if negb (Qle_bool (rnd k) 0.5)
    then rect (x + 8) (y + 8) (w - 16) (h - 16) c
    else c in
  (stroke c, S k).

(** The render function the sketch returns. *)
Definition render (rnd : nat -> Q) (width height : Q) (c : Context2D)
  : Context2D * nat :=
  let c := set_fillStyle "white" c in
  let c := fillRect 0 0 width height c in
  let cx := width * 0.15 in
  let cy := height * 0.15 in
  let w := 100 in
  let h := 100 in
  let gap := 20 in
  let c := translate cx cy c in
  fold_left
    (fun s i => fold_left (fun s j => cell rnd w h gap i j s) (seq 0 5) s)
    (seq 0 5) (c, 0%nat).

(** The path of a cell: its square, followed by the inner square when the
    draw [r] exceeded one half. *)
Definition cell_path (o : Q * Q) (w h gap : Q) (i j : nat) (r : Q)
  : list Rect :=
  let x := 100 + (w + gap) * inject_Z (Z.of_nat i) in
  let y := 100 + (h + gap) * inject_Z (Z.of_nat j) in
  place o x y w h ::
  (if negb (Qle_bool r 0.5)
   then [place o (x + 8) (y + 8) (w - 16) (h - 16)] else []).

(** The rectangle lies on a canvas of the given size. *)
Definition inside (width height : Q) (r : Rect) : Prop :=
  0 <= rect_x r /\ rect_x r + rect_w r <= width /\
  0 <= rect_y r /\ rect_y r + rect_h r <= height.

(** The rectangles are at least [gap] apart along one axis. *)
Definition apart (gap : Q) (r1 r2 : Rect) : Prop :=
  rect_x r1 + rect_w r1 + gap <= rect_x r2 \/
  rect_x r2 + rect_w r2 + gap <= rect_x r1 \/
  rect_y r1 + rect_h r1 + gap <= rect_y r2 \/
  rect_y r2 + rect_h r2 + gap <= rect_y r1.

(** The rectangles of what was painted. *)
Definition rects (p : painted) : list Rect :=
  match p with
  | fill _ r => [r]
  | stroke_path rs => rs
  end.

(** A new canvas context: black fill style, identity transform, empty
    path, nothing painted. *)
Definition new_context : Context2D :=
  {| fillStyle := "#000000"; origin := (0, 0); path := []; paint := [] |}.

End Sketch01.

(** * The numeric path in double precision

    A JavaScript number is an IEEE-754 binary64.  What the class computes
    with numbers (the constructor's values, [getAudioData] and
    [updateMetrics]) is embedded here a second time with every operation
    the correctly rounded one of binary64 (precision 53, round to nearest,
    ties to even), as [SpecFloat] defines it.  The properties that depend
    on how a result is rounded are stated on this embedding.  Timestamps
    and the sample counter are integers far below 2^53, which binary64
    holds exactly: they stay in [Z]. *)
Module Double.

Definition double : Set := spec_float.

Definition prec : Z := 53.
Definition emax : Z := 1024.

Definition add : double -> double -> double := SFadd prec emax.
Definition sub : double -> double -> double := SFsub prec emax.
Definition mul : double -> double -> double := SFmul prec emax.
Definition div : double -> double -> double := SFdiv prec emax.

(** The double of an integer (the integer itself below 2^53). *)
Definition of_Z (z : Z) : double := binary_normalize prec emax z 0 false.

(** The literal [0.8]: the double nearest to 8/10. *)
Definition lit_0_8 : double := div (of_Z 8) (of_Z 10).

(** [Math.max(a, b)] *)
Definition max (a b : double) : double :=
  match a, b with
  | S754_nan, _ | _, S754_nan => S754_nan
  | S754_zero sa, S754_zero sb => S754_zero (sa && sb)
  | _, _ => if SFltb a b then b else a
  end.

(** The rational a double stands for (0 for what is not finite). *)
Definition to_Q (x : double) : Q :=
  match x with
  | S754_finite s m e =>
      ((if s then -1 else 1) * inject_Z (Zpos m) * 2 ^ e)%Q
  | _ => 0%Q
  end.

Record Metrics : Set := {
  lastUpdate : Z;
  updateInterval : Z;
  peakVolume : double;
  averageVolume : double;
  sampleCount : Z;
  volumeSum : double
}.

Record AudioManager : Set := {
  initialized : bool;
  isActive : bool;
  audioContext : option nat;
  analyser : option AnalyserNode;
  microphone : option SourceNode;
  volumeSmoothing : double;
  prevVolume : double;
  stream : option nat;
  metrics : Metrics
}.

(** [constructor()] *)
Definition constructor : AudioManager :=
  {| initialized := false;
     isActive := false;
     audioContext := None;
     analyser := None;
     microphone := None;
     volumeSmoothing := lit_0_8;
     prevVolume := of_Z 0;
     stream := None;
     metrics := {| lastUpdate := 0; updateInterval := 1000;
                   peakVolume := of_Z 0; averageVolume := of_Z 0;
                   sampleCount := 0; volumeSum := of_Z 0 |} |}.

Definition set_prevVolume (x : double) (m : AudioManager) : AudioManager :=
  {| initialized := initialized m; isActive := isActive m;
     audioContext := audioContext m; analyser := analyser m;
     microphone := microphone m; volumeSmoothing := volumeSmoothing m;
     prevVolume := x; stream := stream m; metrics := metrics m |}.
Definition set_metrics (x : Metrics) (m : AudioManager) : AudioManager :=
  {| initialized := initialized m; isActive := isActive m;
     audioContext := audioContext m; analyser := analyser m;
     microphone := microphone m; volumeSmoothing := volumeSmoothing m;
     prevVolume := prevVolume m; stream := stream m; metrics := x |}.

(** The line [updateMetrics] writes when a window closes. *)
Inductive console_msg : Set :=
| log_metrics (currentVolume peak average : double) (samples : Z)
    (active : bool).

(** The state: the console and the fields of [this]. *)
Definition St : Set := list console_msg * AudioManager.

(** [updateMetrics(volume)]; [now] is what [Date.now()] returns. *)
Definition updateMetrics (now : Z) (volume : double) (s : St) : St :=
  let (out, t) := s in
  let r := metrics t in
  let r := {| lastUpdate := lastUpdate r; updateInterval := updateInterval r;
              peakVolume := max (peakVolume r) volume;
              averageVolume := averageVolume r;
              sampleCount := sampleCount r;
              volumeSum := volumeSum r |} in
  let r := {| lastUpdate := lastUpdate r; updateInterval := updateInterval r;
              peakVolume := peakVolume r;
              averageVolume := averageVolume r;
              sampleCount := sampleCount r;
              volumeSum := add (volumeSum r) volume |} in
  let r := {| lastUpdate := lastUpdate r; updateInterval := updateInterval r;
              peakVolume := peakVolume r;
              averageVolume := averageVolume r;
              sampleCount := sampleCount r + 1;
              volumeSum := volumeSum r |} in
  if (now - lastUpdate r >=? updateInterval r)%Z then
    let r := {| lastUpdate := lastUpdate r;
                updateInterval := updateInterval r;
                peakVolume := peakVolume r;
                averageVolume := div (volumeSum r) (of_Z (sampleCount r));
                sampleCount := sampleCount r;
                volumeSum := volumeSum r |} in
    let out :=
      out ++ [log_metrics volume (peakVolume r) (averageVolume r)
                (sampleCount r) (isActive t)] in
    let r := {| lastUpdate := now; updateInterval := updateInterval r;
                peakVolume := volume;
                averageVolume := averageVolume r;
                sampleCount := 1;
                volumeSum := volume |} in
    (out, set_metrics r t)
  else (out, set_metrics r t).

(** The object [getAudioData] returns. *)
Record AudioData : Set := {
  volume : double;
  frequencyData : option (list byte);
  metrics_field : option Metrics
}.

(** [frequencyData.reduce((acc, val) => acc + val, 0)] *)
Definition reduce_sum (frequencyData : list byte) : double :=
  fold_left (fun acc val => add acc (of_Z (Z.of_N (Byte.to_N val))))
    frequencyData (of_Z 0).

(** [sum / frequencyData.length / 255] *)
Definition rawVolume_of (frequencyData : list byte) : double :=
  div (div (reduce_sum frequencyData)
         (of_Z (Z.of_nat (length frequencyData))))
    (of_Z 255).

Definition getAudioData (env : FrameEnv) (s : St) : AudioData * St :=
  let (out, t) := s in
  match isActive t, analyser t with
  | true, Some an =>
      let frequencyData :=
        getByteFrequencyData (frequencyBinCount an) (byteFrequencyData env) in
      let rawVolume := rawVolume_of frequencyData in
      let t :=
        set_prevVolume
          (add (mul (prevVolume t) (volumeSmoothing t))
               (mul rawVolume (sub (of_Z 1) (volumeSmoothing t)))) t in
      let (out, t) := updateMetrics (frame_now env) (prevVolume t) (out, t) in
      ({| volume := prevVolume t;
          frequencyData := Some frequencyData;
          metrics_field := Some (metrics t) |}, (out, t))
  | _, _ =>
      ({| volume := of_Z 0; frequencyData := None; metrics_field := None |},
       s)
  end.

(** One call per animation frame, in order; the returned objects are
    collected. *)
Fixpoint getAudioData_frames (envs : list FrameEnv) (s : St)
  : list AudioData * St :=
  match envs with
  | [] => ([], s)
  | env :: envs' =>
      let (d, s') := getAudioData env s in
      let (ds, s'') := getAudioData_frames envs' s' in
      (d :: ds, s'')
  end.

(** A new manager on which [initialize] and [startMicrophone] succeeded
    at time [now], with analyser [a]: the numbers are the constructor's
    and the metrics are the window [startMicrophone] opens. *)
Definition session (a : AnalyserNode) (now : Z) : St :=
  ([],
   {| initialized := true;
      isActive := true;
      audioContext := Some 0%nat;
      analyser := Some a;
      microphone := Some {| mediaStream := 0; connected := true |};
      volumeSmoothing := volumeSmoothing constructor;
      prevVolume := prevVolume constructor;
      stream := Some 0%nat;
      metrics := {| lastUpdate := now; updateInterval := 1000;
                    peakVolume := of_Z 0; averageVolume := of_Z 0;
                    sampleCount := 0; volumeSum := of_Z 0 |} |}).

(** The doubles the statements name, by their bits. *)

(** 0.8 (0.8000000000000000444...) *)
Definition d0_8 : double := S754_finite false 7205759403792794 (-53).
(** 0.19999999999999996 (0.1999999999999999556...), which is [1 - 0.8] *)
Definition d0_19999999999999996 : double :=
  S754_finite false 7205759403792792 (-55).
(** 0.2 (0.2000000000000000111...) *)
Definition d0_2 : double := S754_finite false 7205759403792794 (-55).
(** 0.6 (0.5999999999999999778...) *)
Definition d0_6 : double := S754_finite false 5404319552844595 (-53).
(** 0.12 *)
Definition d0_12 : double := S754_finite false 8646911284551352 (-56).
(** 0.11999999999999997 *)
Definition d0_11999999999999997 : double :=
  S754_finite false 8646911284551350 (-56).
(** 0.5999999999999998 *)
Definition d0_5999999999999998 : double :=
  S754_finite false 5404319552844593 (-53).

(** The smoothed volume after [n] frames of raw volume 0.6, from 0. *)
Definition geometric (n : nat) : double :=
  Nat.iter n (fun prevVolume =>
                add (mul prevVolume d0_8) (mul d0_6 d0_19999999999999996))
    (of_Z 0).

(** The check of the iterates one after the other: from the [k]-th
    iterate [v], each of the next [n] lies below 0.6 and within 3e-16 of
    the closed form, and, up to the 158th, above the one before it. *)
Fixpoint geometric_ok (n k : nat) (v : double) : bool :=
  match n with
  | O => true
  | S n' =>
      let v' := add (mul v d0_8) (mul d0_6 d0_19999999999999996) in
      negb (Qle_bool 0.6 (to_Q v')) &&
      Qle_bool (Qabs (to_Q v' - 0.6 * (1 - 0.8 ^ Z.of_nat (S k))))
        (3 # 10000000000000000) &&
      (if (S k <=? 158)%nat then negb (Qle_bool (to_Q v') (to_Q v))
       else true) &&
      geometric_ok n' (S k) v'
  end.

End Double.

(** Frames in which every bin reads 153 = 0.6 * 255, 16 ms apart. *)
Definition frames_153 (n : nat) : list FrameEnv :=
  map (fun i => frame_const x99 (5000 + 16 * Z.of_nat i)) (seq 1 n).

(** * Properties *)

Local Open Scope Q_scope.

Ltac js_unfold :=
  cbv beta delta
    [getAudioData updateMetrics assign_metrics assign this world platform
     console_write bind ret throw try_catch may_throw outcome final
     final_world].

(** ** Rolling metrics *)

Lemma updateMetrics_run (now : Z) (v : Q) (w : World) (m : AudioManager) :
  updateMetrics now v (w, m) =
  (Normal tt,
   (set_console (console w ++ window_report now v m) w,
    set_metrics (window now v (metrics m)) m)).
Proof.
  destruct w as [ss cs out], m as [i a c an mic al pv s r].
  destruct r as [lu ui pk av n sm].
  js_unfold. unfold window, window_report. cbn.
  destruct (now - lu >=? ui)%Z; cbn.
  - reflexivity.
  - unfold set_console. cbn. rewrite app_nil_r. reflexivity.
Qed.

(** ** The volume query on an active session *)

Lemma getAudioData_active (env : FrameEnv) (w : World) (m : AudioManager)
    (a : AnalyserNode) :
  isActive m = true -> analyser m = Some a ->
  let v := smoothed m (rawVolume_of (snapshot a env)) in
  let m' := set_prevVolume v m in
  getAudioData env (w, m) =
  (Normal {| volume := v;
             frequencyData := Some (snapshot a env);
             metrics_field := Some (window (frame_now env) v (metrics m)) |},
   (set_console (console w ++ window_report (frame_now env) v m') w,
    set_metrics (window (frame_now env) v (metrics m)) m')).
Proof.
  intros Hact Han. cbn zeta.
  unfold getAudioData, bind at 1, this at 1. cbn [snd].
  rewrite Hact, Han.
  unfold bind at 1, assign at 1. cbn [fst snd].
  unfold bind at 1, this at 1. cbn [fst snd].
  unfold bind at 1. rewrite updateMetrics_run.
  reflexivity.
Qed.

Lemma getAudioData_inert (env : FrameEnv) (st : St) :
  inert (snd st) ->
  getAudioData env st =
  (Normal {| volume := 0; frequencyData := None; metrics_field := None |}, st).
Proof.
  destruct st as [w m]. cbn [snd]. intros H.
  unfold getAudioData, bind, this. cbn [snd].
  destruct H as [H | H]; rewrite H.
  - reflexivity.
  - destruct (isActive m); reflexivity.
Qed.

(** ** Properties kept by a computation *)

Section Preservation.
Variable P : St -> Prop.

Lemma preserves_ret {A} (a : A) : preserves P (ret a).
Proof. intros st H. exact H. Qed.

Lemma preserves_throw {A} (e : exn) : preserves P (@throw A e).
Proof. intros st H. exact H. Qed.

Lemma preserves_this : preserves P this.
Proof. intros st H. exact H. Qed.

Lemma preserves_world : preserves P world.
Proof. intros st H. exact H. Qed.

Lemma preserves_may_throw (r : option exn) : preserves P (may_throw r).
Proof. intros st H. destruct r; exact H. Qed.

Lemma preserves_bind {A B} (c : Js A) (k : A -> Js B) :
  preserves P c -> (forall a, preserves P (k a)) -> preserves P (bind c k).
Proof.
  intros Hc Hk st H. unfold bind.
  specialize (Hc st H). destruct (c st) as [[a | e] st'].
  - apply Hk, Hc.
  - exact Hc.
Qed.

Lemma preserves_try_catch {A} (c : Js A) (h : exn -> Js A) :
  preserves P c -> (forall e, preserves P (h e)) -> preserves P (try_catch c h).
Proof.
  intros Hc Hh st H. unfold try_catch.
  specialize (Hc st H). destruct (c st) as [[a | e] st'].
  - exact Hc.
  - apply Hh, Hc.
Qed.

Lemma preserves_assign (f : AudioManager -> AudioManager) :
  (forall w m, P (w, m) -> P (w, f m)) -> preserves P (assign f).
Proof. intros Hf [w m] H. apply Hf, H. Qed.

Lemma preserves_platform (f : World -> World) :
  (forall w m, P (w, m) -> P (f w, m)) -> preserves P (platform f).
Proof. intros Hf [w m] H. apply Hf, H. Qed.
End Preservation.

(** Breaks a method into its statements; what is left are the assignments
    and the platform effects. *)
Ltac preserves_step :=
  lazymatch goal with
  | |- preserves _ (bind _ _) => apply preserves_bind; [ | intros ? ]
  | |- preserves _ (try_catch _ _) => apply preserves_try_catch; [ | intros ? ]
  | |- preserves _ (ret _) => apply preserves_ret
  | |- preserves _ (throw _) => apply preserves_throw
  | |- preserves _ this => apply preserves_this
  | |- preserves _ world => apply preserves_world
  | |- preserves _ (may_throw _) => apply preserves_may_throw
  | |- preserves _ (console_write _) => apply preserves_platform
  | |- preserves _ (assign_metrics _) => apply preserves_assign
  | |- preserves _ (assign_analyser _) => apply preserves_assign
  | |- preserves _ (assign _) => apply preserves_assign
  | |- preserves _ (platform _) => apply preserves_platform
  | |- preserves _ (match ?x with _ => _ end) => destruct x
  | |- preserves _ (let (_, _) := ?x in _) => destruct x
  end.

Ltac preserves_split := repeat preserves_step.

(** ** The constants stay what the constructor made them *)

Lemma configured_constructor : configured constructor.
Proof. split; [reflexivity | reflexivity | discriminate]. Qed.

Ltac configured_side :=
  unfold on_manager; cbn [snd];
  try (intros ? m [Hs Hi Ha]; split; cbn;
       [ exact Hs || reflexivity | exact Hi || reflexivity | exact Ha ]).

Lemma configured_updateMetrics (now : Z) (v : Q) :
  preserves (on_manager configured) (updateMetrics now v).
Proof.
  intros [w m] H. rewrite updateMetrics_run. revert H.
  unfold on_manager. cbn [snd]. intros [Hs Hi Ha].
  split; cbn; auto.
  unfold window. destruct (_ >=? _)%Z; exact Hi.
Qed.

Lemma configured_getAudioData (env : FrameEnv) :
  preserves (on_manager configured) (getAudioData env).
Proof.
  unfold getAudioData.
  preserves_split; try apply configured_updateMetrics; configured_side.
Qed.

Lemma configured_stopMicrophone (env : StopEnv) :
  preserves (on_manager configured) (stopMicrophone env).
Proof.
  unfold stopMicrophone, stop_tracks, disconnect.
  preserves_split; configured_side.
Qed.

Lemma configured_initialize (env : InitEnv) :
  preserves (on_manager configured) (initialize env).
Proof.
  intros [w m] H. revert H.
  unfold on_manager, initialize, new_AudioContext, createAnalyser,
    assign_analyser.
  js_unfold. cbn [fst snd].
  destruct (initialized m); [ tauto | ].
  destruct env as [[e1|] [e2|]]; cbn; intros [Hs Hi Ha]; split; cbn; auto;
    intros a' Heq; injection Heq as <-; reflexivity.
Qed.

(** After [initialize] the analyser has 512 bins. *)
Lemma configured_bins (m : AudioManager) (a : AnalyserNode) :
  configured m -> analyser m = Some a -> frequencyBinCount a = 512%nat.
Proof.
  intros [_ _ Ha] Han. unfold frequencyBinCount. rewrite (Ha a Han).
  reflexivity.
Qed.

Lemma configured_startMicrophone (env : StartEnv) :
  preserves (on_manager configured) (startMicrophone env).
Proof.
  unfold startMicrophone, getUserMedia, read_audioTrack,
    createMediaStreamSource, connect.
  preserves_split;
    try apply configured_initialize; try apply configured_stopMicrophone;
    configured_side.
Qed.

Lemma configured_cleanup (env : StopEnv) :
  preserves (on_manager configured) (cleanup env).
Proof.
  unfold cleanup, close.
  preserves_split; try apply configured_stopMicrophone; configured_side.
Qed.

Lemma reachable_configured (st : St) : reachable st -> configured (snd st).
Proof.
  induction 1 as [| c st _ IH].
  - exact configured_constructor.
  - destruct c; cbn [step].
    + apply (configured_initialize env st IH).
    + apply (configured_startMicrophone env st IH).
    + apply (configured_stopMicrophone env st IH).
    + apply (configured_getAudioData env st IH).
    + apply (configured_cleanup env st IH).
Qed.

(** ** The raw volume *)

Lemma fold_left_sum (bins : list byte) (acc : Z) :
  fold_left (fun acc val => acc + Z.of_N (Byte.to_N val))%Z bins acc
  = (acc + foldr (fun b acc => Z.of_N (Byte.to_N b) + acc) 0 bins)%Z.
Proof.
  revert acc. induction bins as [| b bins IH]; intros acc; cbn [fold_left foldr].
  - lia.
  - rewrite IH. lia.
Qed.

(** The raw volume is the mean of the bins over 255. *)
Lemma rawVolume_of_mean (bins : list byte) :
  rawVolume_of bins = bins_mean bins / 255.
Proof.
  unfold rawVolume_of, bins_mean, reduce_sum.
  rewrite fold_left_sum, Z.add_0_l. reflexivity.
Qed.

Lemma reduce_sum_bounds (bins : list byte) :
  (0 <= reduce_sum bins <= 255 * Z.of_nat (length bins))%Z.
Proof.
  unfold reduce_sum. rewrite fold_left_sum, Z.add_0_l.
  induction bins as [| b bins IH]; cbn [foldr length].
  - lia.
  - pose proof (Byte.to_N_bounded b). lia.
Qed.

Lemma rawVolume_of_bounds (bins : list byte) :
  (0 < length bins)%nat -> 0 <= rawVolume_of bins <= 1.
Proof.
  intros Hlen. unfold rawVolume_of.
  pose proof (reduce_sum_bounds bins) as [Hlo Hhi].
  assert (HL : 0 < inject_Z (Z.of_nat (length bins))).
  { change 0 with (inject_Z 0). rewrite <- Zlt_Qlt. lia. }
  split.
  - apply Qle_shift_div_l; [ reflexivity | ].
    apply Qle_shift_div_l; [ exact HL | ].
    rewrite !Qmult_0_l. change 0 with (inject_Z 0).
    rewrite <- Zle_Qle. exact Hlo.
  - apply Qle_shift_div_r; [ reflexivity | ].
    apply Qle_shift_div_r; [ exact HL | ].
    rewrite Qmult_1_l. change 255 with (inject_Z 255).
    rewrite <- inject_Z_mult, <- Zle_Qle. exact Hhi.
Qed.

Lemma length_getByteFrequencyData (n : nat) (data : list byte) :
  length (getByteFrequencyData n data) = n.
Proof.
  unfold getByteFrequencyData.
  rewrite length_take, length_app, length_replicate. lia.
Qed.

Lemma length_snapshot (a : AnalyserNode) (env : FrameEnv) :
  length (snapshot a env) = frequencyBinCount a.
Proof. apply length_getByteFrequencyData. Qed.

(** Exponential smoothing is a convex combination. *)
Lemma smoothed_bounds (m : AudioManager) (rawVolume : Q) :
  0 <= volumeSmoothing m <= 1 -> 0 <= prevVolume m <= 1 ->
  0 <= rawVolume <= 1 ->
  0 <= smoothed m rawVolume <= 1.
Proof. unfold smoothed. intros Ha Hp Hr. nra. Qed.

(** The query always returns: either the inert record, or the record of an
    active session. *)
Lemma getAudioData_cases (env : FrameEnv) (st : St) :
  (inert (snd st) /\
   getAudioData env st =
   (Normal {| volume := 0; frequencyData := None; metrics_field := None |},
    st))
  \/
  (exists a, isActive (snd st) = true /\ analyser (snd st) = Some a /\
     let v := smoothed (snd st) (rawVolume_of (snapshot a env)) in
     let r := window (frame_now env) v (metrics (snd st)) in
     fst (getAudioData env st) =
       Normal {| volume := v; frequencyData := Some (snapshot a env);
                 metrics_field := Some r |} /\
     final (getAudioData env st) = set_metrics r (set_prevVolume v (snd st))).
Proof.
  destruct st as [w m]. cbn [snd].
  destruct (isActive m) eqn:Hact; [ destruct (analyser m) as [a|] eqn:Han | ].
  - right. exists a. cbn zeta.
    rewrite (getAudioData_active env w m a Hact Han). auto.
  - left. assert (H : inert m) by (right; exact Han).
    split; [ exact H | ]. apply getAudioData_inert. exact H.
  - left. assert (H : inert m) by (left; exact Hact).
    split; [ exact H | ]. apply getAudioData_inert. exact H.
Qed.

Lemma reachable_started (now : Z) : reachable (started_state now).
Proof.
  exact (reachable_step (call_startMicrophone (start_ok now)) initial
           reachable_initial).
Qed.

(** The methods other than [getAudioData] leave [prevVolume] alone. *)
Section PrevVolumeKept.
Variable x : Q.

Lemma prevVolume_stopMicrophone (env : StopEnv) :
  preserves (prevVolume_is x) (stopMicrophone env).
Proof.
  unfold stopMicrophone, stop_tracks, disconnect.
  preserves_split; unfold prevVolume_is; cbn [snd]; auto.
Qed.

Lemma prevVolume_initialize (env : InitEnv) :
  preserves (prevVolume_is x) (initialize env).
Proof.
  unfold initialize, new_AudioContext, createAnalyser.
  preserves_split; unfold prevVolume_is; cbn [snd]; auto.
Qed.

Lemma prevVolume_startMicrophone (env : StartEnv) :
  preserves (prevVolume_is x) (startMicrophone env).
Proof.
  unfold startMicrophone, getUserMedia, read_audioTrack,
    createMediaStreamSource, connect.
  preserves_split;
    try apply prevVolume_initialize; try apply prevVolume_stopMicrophone;
    unfold prevVolume_is; cbn [snd]; auto.
Qed.

Lemma prevVolume_cleanup (env : StopEnv) :
  preserves (prevVolume_is x) (cleanup env).
Proof.
  unfold cleanup, close.
  preserves_split; try apply prevVolume_stopMicrophone;
    unfold prevVolume_is; cbn [snd]; auto.
Qed.
End PrevVolumeKept.

Lemma prevVolume_lifecycle (c : call) (st : St) :
  (forall env, c <> call_getAudioData env) ->
  prevVolume (snd (step c st)) = prevVolume (snd st).
Proof.
  intros Hc. destruct c; cbn [step].
  - now apply prevVolume_initialize.
  - now apply prevVolume_startMicrophone.
  - now apply prevVolume_stopMicrophone.
  - destruct (Hc env eq_refl).
  - now apply prevVolume_cleanup.
Qed.

(** C3. On an inert session [getAudioData] returns normally, with volume 0
    and a null snapshot. *)
Theorem getAudioData_inert_zero (env : FrameEnv) (st : St) :
  inert (snd st) ->
  exists d,
    outcome (getAudioData env st) = Normal d /\
    volume d = 0 /\ frequencyData d = None.
Proof.
  intros H. rewrite (getAudioData_inert env st H).
  eexists. split; [ reflexivity | ]. split; reflexivity.
Qed.

Lemma getAudioData_inert_zero_witness :
  exists d,
    outcome (getAudioData (frame_const xff 16) initialized_state) = Normal d /\
    volume d = 0 /\ frequencyData d = None.
Proof.
  apply (getAudioData_inert_zero (frame_const xff 16) initialized_state).
  left. reflexivity.
Defined.

(** C10. On an inert session the returned object has no [metrics] field
    (an active session returns one) and the call changes nothing: the
    fields of the manager and the platform are as before. *)
Theorem getAudioData_inert_unchanged (env : FrameEnv) (st : St) :
  inert (snd st) ->
  (exists d, getAudioData env st = (Normal d, st) /\ metrics_field d = None)
  /\ (forall env' st', ~ inert (snd st') ->
        exists d', outcome (getAudioData env' st') = Normal d' /\
                   metrics_field d' = Some (metrics (final (getAudioData env' st')))
                   /\ is_Some (frequencyData d')).
Proof.
  intros H. split.
  - rewrite (getAudioData_inert env st H). eexists. split; reflexivity.
  - intros env' st' Hn.
    destruct (getAudioData_cases env' st') as [[Hi _] | (a & _ & _ & Hd & Hf)].
    + contradiction.
    + cbn zeta in Hd, Hf. unfold outcome. rewrite Hd, Hf.
      eexists. split; [ reflexivity | ]. cbn. split; [ reflexivity | eauto ].
Qed.

Lemma getAudioData_inert_unchanged_witness :
  exists d,
    getAudioData (frame_const x99 16) initial = (Normal d, initial)
    /\ metrics_field d = None.
Proof.
  apply (getAudioData_inert_unchanged (frame_const x99 16) initial).
  right. reflexivity.
Defined.

(** ** Bounds of the smoothed volume *)

(** What a frame keeps and what it establishes. *)
Lemma getAudioData_bounded (env : FrameEnv) (st : St) :
  0 <= volumeSmoothing (snd st) <= 1 ->
  0 <= prevVolume (snd st) <= 1 ->
  (forall a, analyser (snd st) = Some a -> (0 < frequencyBinCount a)%nat) ->
  exists d,
    fst (getAudioData env st) = Normal d /\
    0 <= volume d <= 1 /\
    0 <= prevVolume (final (getAudioData env st)) <= 1 /\
    volumeSmoothing (final (getAudioData env st)) = volumeSmoothing (snd st) /\
    analyser (final (getAudioData env st)) = analyser (snd st).
Proof.
  intros Ha Hp Hbins.
  destruct (getAudioData_cases env st) as [[_ Hr] | (a & _ & Han & Hd & Hf)].
  - rewrite Hr. eexists. split; [ reflexivity | ]. cbn.
    repeat split; try apply Hp; lra.
  - cbn zeta in Hd, Hf. rewrite Hd, Hf. eexists. split; [ reflexivity | ].
    assert (Hv : 0 <= smoothed (snd st) (rawVolume_of (snapshot a env)) <= 1).
    { apply smoothed_bounds; [ exact Ha | exact Hp | ].
      apply rawVolume_of_bounds. rewrite length_snapshot. auto. }
    cbn. repeat split; apply Hv.
Qed.

(** C2. Whatever the smoothing factor in [0,1] and whatever bytes the
    analyser delivers, after any number of [getAudioData] calls every
    returned volume and the stored [prevVolume] are in [0,1]. *)
Theorem smoothed_volume_in_unit_interval (envs : list FrameEnv) (st : St) :
  0 <= volumeSmoothing (snd st) <= 1 ->
  0 <= prevVolume (snd st) <= 1 ->
  (forall a, analyser (snd st) = Some a -> (0 < frequencyBinCount a)%nat) ->
  length (fst (getAudioData_frames envs st)) = length envs /\
  Forall (fun d => 0 <= volume d <= 1) (fst (getAudioData_frames envs st)) /\
  0 <= prevVolume (snd (snd (getAudioData_frames envs st))) <= 1.
Proof.
  revert st. induction envs as [| env envs IH]; intros st Ha Hp Hbins.
  - cbn. auto.
  - cbn [getAudioData_frames].
    destruct (getAudioData_bounded env st Ha Hp Hbins)
      as (d & Hd & Hv & Hp' & Ha' & Han').
    unfold final in *.
    destruct (getAudioData env st) as [r st']. cbn [fst snd] in *. subst r.
    rewrite <- Ha' in Ha. rewrite <- Han' in Hbins.
    specialize (IH st' Ha Hp' Hbins).
    destruct (getAudioData_frames envs st') as [ds st'']. cbn [fst snd] in *.
    destruct IH as (Hlen & Hall & Hfin).
    split; [ cbn; lia | ]. split; [ constructor; assumption | exact Hfin ].
Qed.

Lemma smoothed_volume_in_unit_interval_witness :
  let envs := [frame_const xff 5016; frame_const x00 5032;
               frame_const x99 5048] in
  length (fst (getAudioData_frames envs (started_state 5000))) = 3%nat /\
  Forall (fun d => 0 <= volume d <= 1)
    (fst (getAudioData_frames envs (started_state 5000))) /\
  0 <= prevVolume (snd (snd (getAudioData_frames envs (started_state 5000))))
    <= 1.
Proof.
  apply (smoothed_volume_in_unit_interval
           [frame_const xff 5016; frame_const x00 5032; frame_const x99 5048]
           (started_state 5000)).
  - vm_compute. split; discriminate.
  - vm_compute. split; discriminate.
  - intros a Ha. vm_compute in Ha. injection Ha as <-. vm_compute. lia.
Defined.

(** In particular the manager never holds a volume outside [0,1]. *)
Lemma reachable_prevVolume (st : St) :
  reachable st -> 0 <= prevVolume (snd st) <= 1.
Proof.
  induction 1 as [| c st Hreach IH].
  - cbn. lra.
  - destruct c; try (rewrite prevVolume_lifecycle; [ exact IH | discriminate ]).
    pose proof (reachable_configured st Hreach) as Hconf.
    destruct (getAudioData_bounded env st) as (d & _ & _ & Hp & _); auto.
    + rewrite (configured_smoothing _ Hconf). lra.
    + intros a Han. rewrite (configured_bins _ a Hconf Han). lia.
Qed.

(** ** The rolling window *)

(** C5. A [getAudioData] call on an active session updates the metrics
    with the smoothed value [v]: peak = max(peak, v), sum += v,
    count += 1.  Exactly when the time since [lastUpdate] has reached the
    1000 ms interval, the average becomes sum/count of the updated values,
    the window is reported, peak and sum restart at [v], count at 1, and
    [lastUpdate] becomes the current time. *)
Theorem getAudioData_rolling_metrics (env : FrameEnv) (st : St)
    (a : AnalyserNode) :
  reachable st -> isActive (snd st) = true -> analyser (snd st) = Some a ->
  let r := metrics (snd st) in
  let r' := metrics (final (getAudioData env st)) in
  let v := prevVolume (final (getAudioData env st)) in
  let out := console (final_world (getAudioData env st)) in
  updateInterval r' = 1000%Z /\
  ((frame_now env - lastUpdate r < 1000)%Z ->
     peakVolume r' = Qmax (peakVolume r) v /\
     volumeSum r' = volumeSum r + v /\
     sampleCount r' = (sampleCount r + 1)%Z /\
     averageVolume r' = averageVolume r /\
     lastUpdate r' = lastUpdate r /\
     out = console (fst st)) /\
  ((frame_now env - lastUpdate r >= 1000)%Z ->
     averageVolume r' = (volumeSum r + v) / inject_Z (sampleCount r + 1) /\
     peakVolume r' = v /\
     volumeSum r' = v /\
     sampleCount r' = 1%Z /\
     lastUpdate r' = frame_now env /\
     out = console (fst st) ++
           [log_metrics v (Qmax (peakVolume r) v) (averageVolume r')
              (sampleCount r + 1) true]).
Proof.
  intros Hreach Hact Han. destruct st as [w m]. cbn [fst snd] in *.
  pose proof (reachable_configured _ Hreach) as [_ Hi _]. cbn [snd] in Hi.
  rewrite (getAudioData_active env w m a Hact Han).
  unfold final, final_world, window, window_report. cbn [fst snd].
  cbn [set_metrics set_prevVolume metrics prevVolume isActive].
  rewrite Hi, Hact.
  destruct (Z.geb_spec (frame_now env - lastUpdate (metrics m)) 1000) as [Hge | Hlt];
    cbn.
  - split; [ reflexivity | ]. split; [ lia | ]. intros _.
    repeat split; reflexivity.
  - split; [ reflexivity | ]. split; [ | lia ]. intros _.
    rewrite app_nil_r. repeat split; reflexivity.
Qed.

Lemma getAudioData_rolling_metrics_witness :
  let st := started_state 5000 in
  let env := frame_const x99 6000 in
  let r := metrics (snd st) in
  let r' := metrics (final (getAudioData env st)) in
  let v := prevVolume (final (getAudioData env st)) in
  (frame_now env - lastUpdate r >= 1000)%Z /\
  averageVolume r' = (volumeSum r + v) / inject_Z (sampleCount r + 1) /\
  peakVolume r' = v /\
  volumeSum r' = v /\
  sampleCount r' = 1%Z /\
  lastUpdate r' = frame_now env.
Proof.
  cbv zeta.
  assert (Hge : (frame_now (frame_const x99 6000)
                 - lastUpdate (metrics (snd (started_state 5000))) >= 1000)%Z)
    by (vm_compute; discriminate).
  pose proof (getAudioData_rolling_metrics (frame_const x99 6000)
                (started_state 5000)
                {| fftSize := 1024; smoothingTimeConstant := 0.8;
                   minDecibels := -85; maxDecibels := -10 |}
                (reachable_started 5000) eq_refl eq_refl) as H.
  cbv zeta in H. destruct H as (_ & _ & H).
  destruct (H Hge) as (H1 & H2 & H3 & H4 & H5 & _).
  split; [ exact Hge | ]. split; [ exact H1 | ]. split; [ exact H2 | ].
  split; [ exact H3 | ]. split; [ exact H4 | exact H5 ].
Defined.

(** ** Constant input *)

Lemma Qpower_S (q : Q) (n : nat) :
  ~ q == 0 -> q ^ Z.of_nat (S n) == q * q ^ Z.of_nat n.
Proof.
  intros Hq. rewrite Nat2Z.inj_succ, <- Z.add_1_l.
  rewrite Qpower_plus by exact Hq. reflexivity.
Qed.

Lemma pow08_S (n : nat) : 0.8 ^ Z.of_nat (S n) == 0.8 * 0.8 ^ Z.of_nat n.
Proof. apply Qpower_S. discriminate. Qed.

Lemma pow08_pos (n : nat) : 0 < 0.8 ^ Z.of_nat n.
Proof. apply Qpower_0_lt. reflexivity. Qed.

(** ** Stopping *)

(** The guard [if (!this.isActive) return;]. *)
Lemma stopMicrophone_inert (env : StopEnv) (st : St) :
  isActive (snd st) = false ->
  stopMicrophone env st = (Normal tt, st).
Proof.
  destruct st as [w m]. cbn [snd]. intros H.
  unfold stopMicrophone, bind, this. cbn [snd fst]. rewrite H. reflexivity.
Qed.

(** C7. [stopMicrophone] on an inert session returns normally and changes
    nothing: every field of the manager (metrics, stream, microphone,
    prevVolume, initialized, isActive and the others) and the platform are
    as before. *)
Theorem stopMicrophone_inert_noop (env : StopEnv) (st : St) :
  isActive (snd st) = false ->
  outcome (stopMicrophone env st) = Normal tt /\
  final (stopMicrophone env st) = snd st /\
  final_world (stopMicrophone env st) = fst st /\
  stopMicrophone env st = (Normal tt, st).
Proof.
  intros H. rewrite (stopMicrophone_inert env st H).
  destruct st as [w m]. repeat split.
Qed.

Lemma stopMicrophone_inert_noop_witness :
  outcome (stopMicrophone stop_failing initialized_state) = Normal tt /\
  final (stopMicrophone stop_failing initialized_state)
    = snd initialized_state /\
  final_world (stopMicrophone stop_failing initialized_state)
    = fst initialized_state /\
  stopMicrophone stop_failing initialized_state
    = (Normal tt, initialized_state).
Proof.
  apply (stopMicrophone_inert_noop stop_failing initialized_state).
  reflexivity.
Defined.

(** A [forEach] that completes has ended every track. *)
Lemma forEach_stop_completes (err : nat -> option exn) (tracks : list readyState) :
  forall i tracks',
    forEach_stop err i tracks = (None, tracks') ->
    tracks' = replicate (length tracks) ended.
Proof.
  induction tracks as [| t tracks IH]; intros i tracks' H; cbn in H.
  - injection H as <-. reflexivity.
  - destruct (err i); [ discriminate H | ].
    destruct (forEach_stop err (S i) tracks) as [r rest] eqn:E.
    injection H as -> <-. cbn. f_equal. apply (IH (S i)). exact E.
Qed.

Lemma stream_active_ended (n : nat) :
  stream_active (replicate n ended) = false.
Proof. induction n; [ reflexivity | exact IHn ]. Qed.

Lemma stream_active_live (n : nat) :
  stream_active (replicate (S n) live) = true.
Proof. reflexivity. Qed.

(** What [stopMicrophone] does to an active session, by outcome. *)
Lemma stopMicrophone_active (env : StopEnv) (w : World) (m : AudioManager) :
  isActive m = true ->
  (exists w',
     stopMicrophone env (w, m) =
       (Normal tt,
        (w', set_isActive false (set_microphone None (set_stream None m))))
     /\ streams w' = released m (streams w)
     /\ contexts w' = contexts w
     /\ console w' = console w ++ [log_stopped])
  \/
  (exists e w' m',
     stopMicrophone env (w, m) = (Throw e, (w', m'))
     /\ isActive m' = true
     /\ initialized m' = initialized m
     /\ console w' = console w ++ [error_stop e]).
Proof.
  intros Hact. destruct w as [ss cs out].
  destruct m as [ini act ctx an mic al pv s r]. cbn in Hact. subst act.
  unfold stopMicrophone, stop_tracks, disconnect, released.
  js_unfold. cbn [fst snd isActive stream microphone negb streams].
  destruct s as [h|]; cbn.
  - destruct (forEach_stop (track_stop_error env) 0 (default [] (ss !! h)))
      as [[e|] tracks'] eqn:E; cbn.
    + right. do 3 eexists. split; [ reflexivity | ]. cbn. auto.
    + apply forEach_stop_completes in E. subst tracks'.
      destruct mic as [node|]; cbn.
      * destruct (disconnect_error env) as [e|]; cbn.
        -- right. do 3 eexists. split; [ reflexivity | ]. cbn. auto.
        -- left. eexists. split; [ reflexivity | ]. cbn. auto.
      * left. eexists. split; [ reflexivity | ]. cbn. auto.
  - destruct mic as [node|]; cbn.
    + destruct (disconnect_error env) as [e|]; cbn.
      * right. do 3 eexists. split; [ reflexivity | ]. cbn. auto.
      * left. eexists. split; [ reflexivity | ]. cbn. auto.
    + left. eexists. split; [ reflexivity | ]. cbn. auto.
Qed.

(** Among the first [n] calls either none throws or there is a first one
    that does. *)
Lemma first_failure (err : nat -> option exn) (n : nat) :
  (forall j, (j < n)%nat -> err j = None) \/
  (exists i e,
     (i < n)%nat /\ err i = Some e /\
     forall j, (j < i)%nat -> err j = None).
Proof.
  induction n as [| n [Hnone | (i & e & Hi & He & Hb)]].
  - left. intros j Hj. lia.
  - destruct (err n) as [e|] eqn:En.
    + right. exists n, e. auto.
    + left. intros j Hj.
      destruct (decide (j = n)) as [-> | Hne]; [ exact En | ].
      apply Hnone. lia.
  - right. exists i, e. split; [ lia | auto ].
Qed.

(** The first [stop()] that throws ends the [forEach]. *)
Lemma forEach_stop_first (err : nat -> option exn) (tracks : list readyState)
    (e : exn) :
  forall k i,
    (i < length tracks)%nat ->
    err (k + i)%nat = Some e ->
    (forall j, (j < i)%nat -> err (k + j)%nat = None) ->
    fst (forEach_stop err k tracks) = Some e.
Proof.
  induction tracks as [| t tracks IH]; intros k i Hi He Hbefore;
    cbn [length] in Hi; [ lia | ].
  cbn [forEach_stop]. destruct i as [| i].
  - rewrite Nat.add_0_r in He. rewrite He. reflexivity.
  - pose proof (Hbefore 0%nat ltac:(lia)) as H0.
    rewrite Nat.add_0_r in H0. rewrite H0.
    specialize (IH (S k) i ltac:(lia)).
    destruct (forEach_stop err (S k) tracks) as [r rest]. cbn [fst] in *.
    apply IH.
    + rewrite <- He. f_equal. lia.
    + intros j Hj. rewrite <- (Hbefore (S j) ltac:(lia)). f_equal. lia.
Qed.

(** When no [stop()] throws the [forEach] completes. *)
Lemma forEach_stop_none (err : nat -> option exn) (tracks : list readyState) :
  forall k,
    (forall i, (i < length tracks)%nat -> err (k + i)%nat = None) ->
    fst (forEach_stop err k tracks) = None.
Proof.
  induction tracks as [| t tracks IH]; intros k Hnone; [ reflexivity | ].
  cbn [forEach_stop].
  pose proof (Hnone 0%nat ltac:(cbn; lia)) as H0.
  rewrite Nat.add_0_r in H0. rewrite H0.
  specialize (IH (S k)).
  destruct (forEach_stop err (S k) tracks) as [r rest]. cbn [fst] in *.
  apply IH. intros i Hi.
  rewrite <- (Hnone (S i) ltac:(cbn; lia)). f_equal. lia.
Qed.

(** The outcome of the teardown of an active session, from what the
    platform does. *)
Lemma stopMicrophone_outcome (env : StopEnv) (w : World) (m : AudioManager) :
  isActive m = true ->
  outcome (stopMicrophone env (w, m))
  = match fst (forEach_stop (track_stop_error env) 0
                 (session_tracks (w, m))) with
    | Some e => Throw e
    | None =>
        match microphone m, disconnect_error env with
        | Some _, Some e => Throw e
        | _, _ => Normal tt
        end
    end.
Proof.
  intros Hact. destruct w as [ss cs out].
  destruct m as [ini act ctx an mic al pv s r]. cbn in Hact. subst act.
  unfold stopMicrophone, stop_tracks, disconnect, session_tracks, outcome.
  js_unfold. cbn [fst snd isActive stream microphone negb streams].
  destruct s as [h|]; cbn.
  - destruct (forEach_stop (track_stop_error env) 0 (default [] (ss !! h)))
      as [[e|] tracks']; cbn; [ reflexivity | ].
    destruct mic as [node|]; cbn; [ | reflexivity ].
    destruct (disconnect_error env) as [e|]; reflexivity.
  - destruct mic as [node|]; cbn; [ | reflexivity ].
    destruct (disconnect_error env) as [e|]; reflexivity.
Qed.

(** C6, as the code has it.  When the platform fails during the teardown
    of an active session (a track's [stop()] or the source node's
    [disconnect()] throws), [stopMicrophone] throws that error after
    writing it to the console, and the session stays active; when the
    platform does not fail the call returns and the session is inert.
    [isActive] is false afterwards exactly when the call returned. *)
Theorem stopMicrophone_failure_keeps_active (env : StopEnv) (st : St) :
  isActive (snd st) = true ->
  (forall e, teardown_fails env st e ->
     outcome (stopMicrophone env st) = Throw e /\
     isActive (final (stopMicrophone env st)) = true /\
     console (final_world (stopMicrophone env st))
       = console (fst st) ++ [error_stop e]) /\
  ((forall e, ~ teardown_fails env st e) ->
     outcome (stopMicrophone env st) = Normal tt /\
     isActive (final (stopMicrophone env st)) = false) /\
  (isActive (final (stopMicrophone env st)) = false <->
   outcome (stopMicrophone env st) = Normal tt).
Proof.
  destruct st as [w m]. cbn [fst snd]. intros Hact.
  pose proof (stopMicrophone_outcome env w m Hact) as Hout.
  assert (Hcase :
    (outcome (stopMicrophone env (w, m)) = Normal tt /\
     isActive (final (stopMicrophone env (w, m))) = false) \/
    (exists e,
       outcome (stopMicrophone env (w, m)) = Throw e /\
       isActive (final (stopMicrophone env (w, m))) = true /\
       console (final_world (stopMicrophone env (w, m)))
         = console w ++ [error_stop e])).
  { destruct (stopMicrophone_active env w m Hact)
      as [(w' & -> & _) | (e' & w' & m' & -> & Ha & _ & Hc)];
      unfold outcome, final, final_world; cbn [fst snd].
    - left. split; reflexivity.
    - right. exists e'. auto. }
  split; [ | split ].
  - intros e Hfail.
    assert (He : outcome (stopMicrophone env (w, m)) = Throw e).
    { rewrite Hout.
      destruct Hfail as [(i & Hi & He & Hbefore) | (Hnone & Hmic & Hd)].
      - rewrite (forEach_stop_first _ _ e 0 i Hi He Hbefore). reflexivity.
      - rewrite (forEach_stop_none _ _ 0 Hnone).
        cbn [snd] in Hmic. destruct Hmic as [node ->]. rewrite Hd.
        reflexivity. }
    destruct Hcase as [[Hn _] | (e' & He' & Ha & Hc)].
    + rewrite Hn in He. discriminate He.
    + rewrite He' in He. injection He as ->. auto.
  - intros Hno.
    destruct Hcase as [Hn | (e & He & _)]; [ exact Hn | exfalso ].
    rewrite Hout in He.
    destruct (first_failure (track_stop_error env)
                (length (session_tracks (w, m))))
      as [Hnone | (i & e0 & Hi & Hei & Hb)].
    + rewrite (forEach_stop_none _ _ 0 Hnone) in He.
      destruct (microphone m) as [node|] eqn:Em; [ | discriminate He ].
      destruct (disconnect_error env) as [e1|] eqn:Ed; [ | discriminate He ].
      apply (Hno e1). right.
      split; [ exact Hnone | ].
      split; [ cbn [snd]; rewrite Em; eauto | exact Ed ].
    + apply (Hno e0). left. exists i. auto.
  - destruct Hcase as [[Hn Ha] | (e & He & Ha & _)].
    + split; intros _; assumption.
    + split; intros H; [ rewrite Ha in H | rewrite He in H ];
        discriminate H.
Qed.

Lemma stopMicrophone_failure_keeps_active_witness :
  teardown_fails stop_failing (started_state 5000) InvalidStateError /\
  outcome (stopMicrophone stop_failing (started_state 5000))
    = Throw InvalidStateError /\
  isActive (final (stopMicrophone stop_failing (started_state 5000))) = true /\
  teardown_fails stop_disconnect_fails (started_state 5000)
    InvalidStateError /\
  outcome (stopMicrophone stop_disconnect_fails (started_state 5000))
    = Throw InvalidStateError /\
  isActive (final (stopMicrophone stop_disconnect_fails (started_state 5000)))
    = true.
Proof.
  assert (Hstop : teardown_fails stop_failing (started_state 5000)
                    InvalidStateError).
  { left. exists 0%nat. split; [ vm_compute; lia | ].
    split; [ reflexivity | intros j Hj; lia ]. }
  assert (Hdisc : teardown_fails stop_disconnect_fails (started_state 5000)
                    InvalidStateError).
  { right. split; [ intros i Hi; reflexivity | ].
    split; [ vm_compute; eexists; reflexivity | reflexivity ]. }
  destruct (stopMicrophone_failure_keeps_active stop_failing
              (started_state 5000) eq_refl) as (H1 & _ & _).
  destruct (stopMicrophone_failure_keeps_active stop_disconnect_fails
              (started_state 5000) eq_refl) as (H2 & _ & _).
  destruct (H1 _ Hstop) as (Ha & Hb & _).
  destruct (H2 _ Hdisc) as (Hc & Hd & _).
  split; [ exact Hstop | ]. split; [ exact Ha | ]. split; [ exact Hb | ].
  split; [ exact Hdisc | ]. split; [ exact Hc | exact Hd ].
Defined.

(** C6, as the specification words it, fails: the first track's [stop()]
    throws on an active session; the error reaches the caller and the
    session is still active. *)
Lemma stopMicrophone_failure_not_inert :
  isActive (snd (started_state 5000)) = true /\
  outcome (stopMicrophone stop_failing (started_state 5000))
    = Throw InvalidStateError /\
  isActive (final (stopMicrophone stop_failing (started_state 5000)))
    <> false.
Proof. vm_compute. repeat split; discriminate. Qed.

(** ** Starting *)

(** [initialize] does not touch the capture session. *)
Lemma initialize_session (env : InitEnv) (w : World) (m : AudioManager) :
  exists r w1 m1,
    initialize env (w, m) = (r, (w1, m1)) /\
    streams w1 = streams w /\ isActive m1 = isActive m /\
    stream m1 = stream m /\ microphone m1 = microphone m /\
    metrics m1 = metrics m /\
    (r = Normal tt -> initialized m1 = true) /\
    (initialized m = true -> r = Normal tt /\ w1 = w /\ m1 = m).
Proof.
  destruct w as [ss cs out], m as [ini act ctx an mic al pv s r].
  unfold initialize, new_AudioContext, createAnalyser, assign_analyser.
  js_unfold. cbn [fst snd initialized].
  destruct ini; [ do 3 eexists; split; [ reflexivity | cbn; auto 10 ] | ].
  destruct env as [[e1|] [e2|]]; cbn;
    do 3 eexists; (split; [ reflexivity | ]); cbn;
    repeat split; auto; try discriminate.
Qed.

Lemma handler_throws {A} (c : Js unit) (e : exn) (st : St) (a : A) (st' : St) :
  (c >> throw e) st <> (Normal a, st').
Proof.
  unfold bind, throw. destruct (c st) as [[[]|e'] st1]; discriminate.
Qed.

Lemma startMicrophone_returns (env : StartEnv) (w : World) (m : AudioManager)
    (w' : World) (m' : AudioManager) :
  startMicrophone env (w, m) = (Normal tt, (w', m')) ->
  exists n,
    getUserMedia_result env = inr (S n) /\
    streams w' = released_if_active m (streams w) ++ [replicate (S n) live] /\
    stream m' = Some (length (streams w)) /\
    isActive m' = true /\
    initialized m' = true /\
    microphone m' =
      Some {| mediaStream := length (streams w); connected := true |} /\
    metrics m' = fresh_metrics (start_now env) /\
    (initialized m = true ->
     outcome (stopMicrophone (stop_env env) (w, m)) = Normal tt).
Proof.
  unfold startMicrophone. unfold bind at 1, this at 1. cbn [snd].
  unfold bind at 1.
  assert (Hinit : exists r w1 m1,
    (if negb (initialized m) then initialize (init_env env) else ret tt) (w, m)
      = (r, (w1, m1)) /\
    streams w1 = streams w /\ isActive m1 = isActive m /\
    stream m1 = stream m /\ (r = Normal tt -> initialized m1 = true) /\
    (initialized m = true -> (w1, m1) = (w, m))).
  { destruct (initialized m) eqn:Hi; cbn [negb].
    - do 3 eexists. split; [ reflexivity | auto 10 ].
    - destruct (initialize_session (init_env env) w m)
        as (r & w1 & m1 & -> & H1 & H2 & H3 & _ & _ & H4 & _).
      do 3 eexists. split; [ reflexivity | ].
      repeat split; auto. discriminate. }
  destruct Hinit as (r & w1 & m1 & -> & Hss & Hact & Hstr & Hini & Hsame).
  destruct r as [[]|e]; [ | discriminate ].
  specialize (Hini eq_refl).
  unfold try_catch.
  match goal with
  | |- context [let (_, _) := ?body (w1, m1) in _] =>
      destruct (body (w1, m1)) as [[[]|e] st2] eqn:Hbody
  end.
  2: { intros H. exfalso. revert H. unfold bind at 1.
       destruct (console_write (error_start e) st2) as [[[]|e'] st3];
         [ apply handler_throws | discriminate ]. }
  intros H. injection H as ->.
  unfold bind at 1 in Hbody.
  destruct (stopMicrophone (stop_env env) (w1, m1)) as [[[]|e] [w2 m2]] eqn:Hstop;
    [ | discriminate Hbody ].
  assert (Hmid : streams w2 = released_if_active m (streams w) /\
                 initialized m2 = true).
  { unfold released_if_active, released. rewrite <- Hact, <- Hstr, <- Hss.
    destruct (isActive m1) eqn:Ha.
    - destruct (stopMicrophone_active (stop_env env) w1 m1 Ha)
        as [(w3 & H3 & Hs3 & _) | (e & w3 & m3 & H3 & _)];
        rewrite H3 in Hstop; [ | discriminate Hstop ].
      injection Hstop as <- <-. split; [ exact Hs3 | exact Hini ].
    - rewrite (stopMicrophone_inert (stop_env env) (w1, m1) Ha) in Hstop.
      injection Hstop as <- <-. split; [ reflexivity | exact Hini ]. }
  destruct Hmid as [Hs2 Hi2].
  assert (Hlen : length (streams w2) = length (streams w)).
  { rewrite Hs2. unfold released_if_active, released.
    destruct (isActive m); [ destruct (stream m) | ]; 
      rewrite ?length_insert; reflexivity. }
  assert (Hout : initialized m = true ->
            outcome (stopMicrophone (stop_env env) (w, m)) = Normal tt).
  { intros Hi. rewrite <- (Hsame Hi), Hstop. reflexivity. }
  revert Hout. generalize (initialized m). intros b Hout.
  rewrite <- Hs2, <- Hlen. clear Hstop Hs2 Hlen Hss Hact Hstr Hini Hsame.
  unfold getUserMedia, read_audioTrack, createMediaStreamSource, connect
    in Hbody.
  revert Hbody. js_unfold. cbn [fst snd].
  destruct (getUserMedia_result env) as [e|n]; [ discriminate | ].
  cbn. rewrite list_lookup_middle by reflexivity.
  destruct n as [|n]; cbn; [ discriminate | ].
  destruct (audioContext m2); cbn; [ | discriminate ].
  destruct (createMediaStreamSource_error env); cbn; [ discriminate | ].
  destruct (connect_error env); cbn; [ discriminate | ].
  intros H. injection H as <- <-. exists n. cbn.
  repeat split; auto.
Qed.

(** ** Exactly one capturing stream *)


Lemma filter_none {A} (P : A -> Prop) `{forall x, Decision (P x)} (l : list A) :
  (forall x, x ∈ l -> ~ P x) -> filter P l = [].
Proof.
  induction l as [| x l IH]; intros Hl; [ reflexivity | ].
  rewrite filter_cons_False by (apply Hl; left).
  apply IH. intros y Hy. apply Hl. right. exact Hy.
Qed.

Lemma active_streams_quiet (w : World) :
  (forall h tracks, streams w !! h = Some tracks ->
                    stream_active tracks = false) ->
  active_streams w = [].
Proof.
  intros Hq. unfold active_streams. apply filter_none.
  intros h _ Hact. destruct (streams w !! h) as [tracks|] eqn:E.
  - change (stream_active tracks = true) in Hact.
    rewrite (Hq h tracks E) in Hact. discriminate.
  - discriminate.
Qed.


(** Under [no_leak], the teardown leaves no capturing stream. *)
Lemma released_quiet (w : World) (m : AudioManager) :
  no_leak (w, m) ->
  forall h tracks,
    released_if_active m (streams w) !! h = Some tracks ->
    stream_active tracks = false.
Proof.
  intros Hno h tracks Hl.
  destruct (stream_active tracks) eqn:Hact; [ exfalso | reflexivity ].
  unfold released_if_active, released in Hl.
  assert (Hcap : streams w !! h = Some tracks ->
                 isActive m = true /\ stream m = Some h).
  { intros E. apply (Hno h). exists tracks. auto. }
  destruct (isActive m) eqn:Ha.
  - destruct (stream m) as [h0|] eqn:Hs.
    + destruct (decide (h0 = h)) as [-> | Hne].
      * destruct (decide (h < length (streams w))%nat) as [Hlt | Hge].
        -- rewrite list_lookup_insert_eq in Hl by exact Hlt.
           injection Hl as <-. rewrite stream_active_ended in Hact.
           discriminate.
        -- rewrite list_insert_ge in Hl by lia.
           apply lookup_lt_Some in Hl. lia.
      * rewrite list_lookup_insert_ne in Hl by exact Hne.
        destruct (Hcap Hl) as [_ E]. congruence.
    + destruct (Hcap Hl) as [_ E]. discriminate.
  - destruct (Hcap Hl) as [E _]. discriminate.
Qed.


(** The stream a returning [startMicrophone] acquired, in the world it
    leaves. *)
Lemma startMicrophone_acquired (env : StartEnv) (st st' : St) :
  startMicrophone env st = (Normal tt, st') ->
  exists n,
    stream (snd st') = Some (length (streams (fst st))) /\
    streams (fst st') !! length (streams (fst st))
      = Some (replicate (S n) live) /\
    streams (fst st')
      = released_if_active (snd st) (streams (fst st))
        ++ [replicate (S n) live] /\
    isActive (snd st') = true /\
    initialized (snd st') = true /\
    metrics (snd st') = fresh_metrics (start_now env).
Proof.
  destruct st as [w m], st' as [w' m']. cbn [fst snd]. intros Hrun.
  destruct (startMicrophone_returns env w m w' m' Hrun)
    as (n & _ & Hss & Hstr & Hact & Hini & _ & Hmet & _).
  exists n. split; [ exact Hstr | ]. split; [ | auto ].
  rewrite Hss. apply list_lookup_middle.
  unfold released_if_active, released.
  destruct (isActive m); [ destruct (stream m) | ];
    rewrite ?length_insert; reflexivity.
Qed.




(** ** Failure of [startMicrophone] *)

(** When access to the device is refused on an initialised inert session,
    nothing changes but the console. *)
Lemma startMicrophone_refused (env : StartEnv) (w : World) (m : AudioManager)
    (e : exn) :
  initialized m = true -> isActive m = false ->
  getUserMedia_result env = inl e ->
  startMicrophone env (w, m) =
  (Throw e, (set_console (console w ++ [error_start e]) w, m)).
Proof.
  intros Hini Hact Hgum.
  unfold startMicrophone. unfold bind at 1, this at 1. cbn [snd].
  rewrite Hini. cbn [negb]. unfold bind at 1, ret at 1.
  unfold try_catch, bind at 1.
  rewrite (stopMicrophone_inert (stop_env env) (w, m) Hact).
  unfold bind at 1, getUserMedia. rewrite Hgum. unfold throw at 1.
  unfold bind at 1, console_write, platform. cbn [fst snd].
  unfold bind at 1.
  rewrite (stopMicrophone_inert (catch_env env) (_, m) Hact).
  reflexivity.
Qed.

(** When a step fails after the device was granted, the [stopMicrophone]
    of the [catch] block finds [isActive] false and returns at once: the
    granted stream stays in [this.stream] and its tracks stay live. *)
Lemma startMicrophone_failure_after_grant (env : StartEnv) (w : World)
    (m : AudioManager) (n : nat) (e : exn) :
  initialized m = true -> isActive m = false -> is_Some (audioContext m) ->
  getUserMedia_result env = inr (S n) ->
  createMediaStreamSource_error env = Some e ->
  startMicrophone env (w, m) =
  (Throw e,
   (set_console ((console w ++ [log_stream_obtained]) ++ [error_start e])
      (set_streams (streams w ++ [replicate (S n) live]) w),
    set_stream (Some (length (streams w))) m)).
Proof.
  intros Hini Hact [c Hctx] Hgum Hsrc.
  unfold startMicrophone. unfold bind at 1, this at 1. cbn [snd].
  rewrite Hini. cbn [negb]. unfold bind at 1, ret at 1.
  unfold try_catch, bind at 1.
  rewrite (stopMicrophone_inert (stop_env env) (w, m) Hact).
  unfold getUserMedia, read_audioTrack, createMediaStreamSource.
  rewrite Hgum, Hsrc. js_unfold. cbn.
  rewrite list_lookup_middle by reflexivity. cbn. rewrite Hctx. cbn.
  rewrite Hact. cbn. destruct w; reflexivity.
Qed.

(** C4 does not hold of the code.  On an initialised session the device
    is granted with one live track and [createMediaStreamSource] throws:
    the error reaches the caller with the session inert and still
    initialised, but the stream is still held in [this.stream] and its
    track still captures. *)
Theorem startMicrophone_partial_failure_leaks :
  initialized (snd initialized_state) = true /\
  active_streams (fst initialized_state) = [] /\
  outcome (startMicrophone start_source_fails initialized_state)
    = Throw NotSupportedError /\
  isActive (final (startMicrophone start_source_fails initialized_state))
    = false /\
  initialized (final (startMicrophone start_source_fails initialized_state))
    = true /\
  stream (final (startMicrophone start_source_fails initialized_state))
    = Some 0%nat /\
  streams (final_world (startMicrophone start_source_fails initialized_state))
    = [[live]] /\
  active_streams
    (final_world (startMicrophone start_source_fails initialized_state))
    = [0%nat].
Proof. vm_compute. repeat split. Qed.

(** * Further properties of the manager *)

(** ** [initialize] *)

(** X1. [initialize] on a manager that is not initialised, when it
    returns: the manager is initialised, holds a new running context and
    an analyser with transform size 1024 (512 bins), smoothing 0.8 and
    decibel range -85..-10; the capture session, the stored volume and the
    metrics are untouched. *)
Theorem initialize_configures (env : InitEnv) (st : St) :
  initialized (snd st) = false ->
  outcome (initialize env st) = Normal tt ->
  initialized (final (initialize env st)) = true /\
  audioContext (final (initialize env st))
    = Some (length (contexts (fst st))) /\
  contexts (final_world (initialize env st))
    = contexts (fst st) ++ [running] /\
  analyser (final (initialize env st)) = Some configured_analyser_node /\
  frequencyBinCount configured_analyser_node = 512%nat /\
  streams (final_world (initialize env st)) = streams (fst st) /\
  isActive (final (initialize env st)) = isActive (snd st) /\
  stream (final (initialize env st)) = stream (snd st) /\
  microphone (final (initialize env st)) = microphone (snd st) /\
  prevVolume (final (initialize env st)) = prevVolume (snd st) /\
  metrics (final (initialize env st)) = metrics (snd st).
Proof.
  destruct st as [w m]. cbn [fst snd]. intros Hini.
  unfold initialize, new_AudioContext, createAnalyser, assign_analyser.
  js_unfold. cbn [fst snd]. rewrite Hini.
  destruct env as [[e1|] [e2|]]; cbn; intros H; try discriminate H.
  repeat split.
Qed.

Lemma initialize_configures_witness :
  initialized (final (initialize init_ok initial)) = true /\
  audioContext (final (initialize init_ok initial)) = Some 0%nat /\
  contexts (final_world (initialize init_ok initial)) = [running] /\
  analyser (final (initialize init_ok initial))
    = Some configured_analyser_node.
Proof.
  destruct (initialize_configures init_ok initial eq_refl eq_refl)
    as (H1 & H2 & H3 & H4 & _).
  split; [ exact H1 | ]. split; [ exact H2 | ].
  split; [ exact H3 | exact H4 ].
Defined.

(** What [initialize] leaves alone, whatever its outcome, and what each
    outcome means. *)
Lemma initialize_effect (env : InitEnv) (w : World) (m : AudioManager) :
  exists r w1 m1,
    initialize env (w, m) = (r, (w1, m1)) /\
    streams w1 = streams w /\ isActive m1 = isActive m /\
    stream m1 = stream m /\ microphone m1 = microphone m /\
    prevVolume m1 = prevVolume m /\ metrics m1 = metrics m /\
    (initialized m = true -> r = Normal tt) /\
    (r = Normal tt -> initialized m1 = true) /\
    (forall e, r = Throw e ->
       initialized m1 = false /\
       last (console w1) = Some (error_initialize e) /\
       (new_AudioContext_error env = Some e /\
        contexts w1 = contexts w /\ audioContext m1 = audioContext m
        \/
        new_AudioContext_error env = None /\
        createAnalyser_error env = Some e /\
        contexts w1 = contexts w ++ [running] /\
        audioContext m1 = Some (length (contexts w)))).
Proof.
  destruct w as [ss cs out], m as [ini act ctx an mic al pv s r].
  unfold initialize, new_AudioContext, createAnalyser, assign_analyser.
  js_unfold. cbn [fst snd initialized].
  destruct ini.
  { do 3 eexists. split; [ reflexivity | ]. cbn.
    do 8 (split; [ auto | ]). intros e H; discriminate H. }
  destruct env as [[e1|] [e2|]]; cbn;
    do 3 eexists; (split; [ reflexivity | ]); cbn;
    do 6 (split; [ reflexivity | ]);
    (split; [ discriminate | ]); (split; [ auto; discriminate | ]);
    intros e H; try discriminate H; injection H as <-;
    (split; [ reflexivity | ]).
  - split; [ apply last_snoc | ]. left. auto.
  - split; [ apply last_snoc | ]. left. auto.
  - split; [ apply last_snoc | ]. right. auto.
Qed.

(** X2. When [initialize] throws, the manager was not initialised and is
    still not; the error is the one the platform raised (by the context
    constructor or by [createAnalyser]) and it is the last line of the
    console; the capture session, the stored volume and the metrics are
    untouched.  When [createAnalyser] was the one to fail, the context
    just created stays referenced by the manager and running. *)
Theorem initialize_failure (env : InitEnv) (st : St) (e : exn) :
  outcome (initialize env st) = Throw e ->
  initialized (snd st) = false /\
  initialized (final (initialize env st)) = false /\
  last (console (final_world (initialize env st)))
    = Some (error_initialize e) /\
  streams (final_world (initialize env st)) = streams (fst st) /\
  isActive (final (initialize env st)) = isActive (snd st) /\
  stream (final (initialize env st)) = stream (snd st) /\
  prevVolume (final (initialize env st)) = prevVolume (snd st) /\
  metrics (final (initialize env st)) = metrics (snd st) /\
  (new_AudioContext_error env = Some e /\
   contexts (final_world (initialize env st)) = contexts (fst st) /\
   audioContext (final (initialize env st)) = audioContext (snd st)
   \/
   new_AudioContext_error env = None /\
   createAnalyser_error env = Some e /\
   contexts (final_world (initialize env st))
     = contexts (fst st) ++ [running] /\
   audioContext (final (initialize env st))
     = Some (length (contexts (fst st)))).
Proof.
  destruct st as [w m]. cbn [fst snd].
  destruct (initialize_effect env w m)
    as (r & w1 & m1 & -> & Hss & Hact & Hstr & _ & Hpv & Hmet & Hwas & _ & Hko).
  unfold outcome, final, final_world. cbn [fst snd]. intros ->.
  destruct (Hko e eq_refl) as (Hini & Hcon & Hcase).
  split.
  { destruct (initialized m); [ discriminate (Hwas eq_refl) | reflexivity ]. }
  auto 10.
Qed.

Lemma initialize_failure_witness :
  initialized (final (initialize init_no_context initial)) = false /\
  last (console (final_world (initialize init_no_context initial)))
    = Some (error_initialize NotSupportedError) /\
  contexts (final_world (initialize init_no_context initial)) = [].
Proof.
  destruct (initialize_failure init_no_context initial NotSupportedError
              eq_refl)
    as (_ & H1 & H2 & _ & _ & _ & _ & _ & [(_ & H3 & _) | (H3 & _)]).
  - split; [ exact H1 | ]. split; [ exact H2 | exact H3 ].
  - discriminate H3.
Defined.

(** Only [cleanup] clears [initialized]. *)
Lemma initialized_kept (c : call) (st : St) :
  (forall env, c <> call_cleanup env) ->
  initialized (snd st) = true ->
  initialized (snd (step c st)) = true.
Proof.
  intros Hc Hini.
  assert (Hstop : forall env,
             preserves (on_manager (fun m => initialized m = true))
               (stopMicrophone env)).
  { intros env. unfold stopMicrophone, stop_tracks, disconnect.
    preserves_split; unfold on_manager; cbn [snd]; auto. }
  assert (Hinit : forall env,
             preserves (on_manager (fun m => initialized m = true))
               (initialize env)).
  { intros env. unfold initialize, new_AudioContext, createAnalyser,
      assign_analyser.
    preserves_split; unfold on_manager; cbn [snd]; auto. }
  destruct c; cbn [step].
  - exact (Hinit env st Hini).
  - revert st Hini.
    change (preserves (on_manager (fun m => initialized m = true))
              (startMicrophone env)).
    unfold startMicrophone, getUserMedia, read_audioTrack,
      createMediaStreamSource, connect.
    preserves_split; try apply Hinit; try apply Hstop;
      unfold on_manager; cbn [snd]; auto.
  - exact (Hstop env st Hini).
  - revert st Hini.
    change (preserves (on_manager (fun m => initialized m = true))
              (getAudioData env)).
    unfold getAudioData, updateMetrics, assign_metrics.
    preserves_split; unfold on_manager; cbn [snd]; auto.
  - destruct (Hc env eq_refl).
Qed.

(** X3. Once [initialize] has returned, the manager stays initialised and
    every further [initialize] changes nothing and returns, whatever the
    platform would answer and whatever other methods were called in
    between, as long as [cleanup] was not. *)
Theorem initialize_idempotent (env1 env2 : InitEnv) (cs : list call)
    (st : St) :
  outcome (initialize env1 st) = Normal tt ->
  Forall (fun c => forall env, c <> call_cleanup env) cs ->
  let st' := steps cs (snd (initialize env1 st)) in
  initialized (snd st') = true /\
  initialize env2 st' = (Normal tt, st').
Proof.
  intros Hout Hcs. cbv zeta.
  assert (Hini : initialized (snd (snd (initialize env1 st))) = true).
  { destruct st as [w m].
    destruct (initialize_effect env1 w m)
      as (r & w1 & m1 & Hrun & _ & _ & _ & _ & _ & _ & _ & Hok & _).
    rewrite Hrun in Hout |- *. unfold outcome in Hout. cbn [fst snd] in *.
    apply Hok. exact Hout. }
  revert Hini. generalize (snd (initialize env1 st)). clear Hout.
  induction Hcs as [| c cs Hc _ IH]; intros s Hini.
  - split; [ exact Hini | ].
    destruct s as [w m]. cbn [steps fold_left snd] in *.
    unfold initialize, bind, this. cbn [snd]. rewrite Hini. reflexivity.
  - cbn [steps fold_left].
    change (fold_left (fun st c => step c st) cs (step c s))
      with (steps cs (step c s)).
    apply IH. apply initialized_kept; [ exact Hc | exact Hini ].
Qed.

Lemma initialize_idempotent_witness :
  let st' :=
    steps [call_startMicrophone (start_ok 5000);
           call_getAudioData (frame_loud 5016);
           call_stopMicrophone stop_ok]
      (snd (initialize init_ok initial)) in
  initialized (snd st') = true /\
  initialize init_no_context st' = (Normal tt, st').
Proof.
  cbv zeta.
  apply (initialize_idempotent init_ok init_no_context
           [call_startMicrophone (start_ok 5000);
            call_getAudioData (frame_loud 5016);
            call_stopMicrophone stop_ok] initial).
  - reflexivity.
  - repeat constructor; discriminate.
Defined.

(** ** The flags and the references they promise *)

Lemma wired_constructor : wired constructor.
Proof. split; discriminate. Qed.

Lemma wired_initialize (env : InitEnv) :
  preserves (on_manager wired) (initialize env).
Proof.
  intros [w m]. unfold on_manager. cbn [snd].
  destruct m as [ini act ctx an mic al pv s r].
  unfold initialize, new_AudioContext, createAnalyser, assign_analyser.
  js_unfold. cbn [fst snd initialized].
  destruct ini; [ tauto | ].
  destruct env as [[e1|] [e2|]]; cbn; intros [H1 H2 H3]; split; cbn in *;
    eauto; discriminate.
Qed.

Ltac wired_side :=
  unfold on_manager; cbn [snd];
  try (intros ? m [H1 H2 H3]; split; cbn; solve [ auto | discriminate ]).

Lemma wired_stopMicrophone (env : StopEnv) :
  preserves (on_manager wired) (stopMicrophone env).
Proof.
  unfold stopMicrophone, stop_tracks, disconnect.
  preserves_split; wired_side.
Qed.

Lemma wired_getAudioData (env : FrameEnv) :
  preserves (on_manager wired) (getAudioData env).
Proof.
  unfold getAudioData, updateMetrics.
  preserves_split; wired_side.
Qed.

Lemma wired_cleanup (env : StopEnv) :
  preserves (on_manager wired) (cleanup env).
Proof.
  intros [w m] H. unfold cleanup. unfold bind at 1.
  pose proof (preserves_try_catch (on_manager wired)
                (stopMicrophone env) (fun _ => ret tt)
                (wired_stopMicrophone env)
                (fun e => preserves_ret (on_manager wired) tt) (w, m) H)
    as H1.
  destruct (try_catch (stopMicrophone env) (fun _ => ret tt) (w, m))
    as [[[]|e] [w1 m1]]; cbn [snd] in H1; [ | exact H1 ].
  revert H1. unfold on_manager, close. js_unfold. cbn [fst snd].
  intros [_ _ H3].
  destruct (audioContext m1); cbn; split; cbn; solve [ auto | discriminate ].
Qed.

(** During the [try] block of [startMicrophone] the manager is
    initialised. *)
Lemma wired_startMicrophone (env : StartEnv) :
  preserves (on_manager wired) (startMicrophone env).
Proof.
  intros [w m] H. unfold startMicrophone. unfold bind at 1, this at 1.
  cbn [snd]. unfold bind at 1.
  assert (Hinit : on_manager wired
            (snd ((if negb (initialized m)
                   then initialize (init_env env) else ret tt) (w, m))) /\
          (fst ((if negb (initialized m)
                 then initialize (init_env env) else ret tt) (w, m))
             = Normal tt ->
           initialized
             (snd (snd ((if negb (initialized m)
                         then initialize (init_env env) else ret tt) (w, m))))
             = true)).
  { destruct (initialized m) eqn:Hi; cbn [negb].
    - split; [ exact H | intros _; exact Hi ].
    - split; [ apply (wired_initialize (init_env env) (w, m) H) | ].
      destruct (initialize_effect (init_env env) w m)
        as (r & w1 & m1 & -> & _ & _ & _ & _ & _ & _ & _ & Hok & _).
      exact Hok. }
  destruct ((if negb (initialized m) then initialize (init_env env)
             else ret tt) (w, m)) as [[[]|e] st1];
    cbn [fst snd] in Hinit; destruct Hinit as [Hw Hi]; [ | exact Hw ].
  specialize (Hi eq_refl).
  pose (P := fun st : St => wired (snd st) /\ initialized (snd st) = true).
  assert (HP : preserves P
            (try_catch
               (stopMicrophone (stop_env env) >>
                let! h := getUserMedia env in
                assign (set_stream (Some h)) >>
                read_audioTrack h >>
                console_write log_stream_obtained >>
                let! node := createMediaStreamSource env h in
                assign (set_microphone (Some node)) >>
                connect env >>
                assign (set_isActive true) >>
                assign (set_metrics (fresh_metrics (start_now env))) >>
                console_write log_started)
               (fun error =>
                console_write (error_start error) >>
                stopMicrophone (catch_env env) >>
                throw error))).
  { unfold stopMicrophone, stop_tracks, disconnect, getUserMedia,
      read_audioTrack, createMediaStreamSource, connect.
    preserves_split; unfold P; cbn [snd];
      try (intros ? m0 [[H1 H2 H3] H4]; cbn in *;
           split; [ split; cbn | ]; solve [ auto | discriminate ]). }
  apply (HP st1). split; assumption.
Qed.

Lemma reachable_wired (st : St) : reachable st -> wired (snd st).
Proof.
  induction 1 as [| c st _ IH].
  - exact wired_constructor.
  - destruct c; cbn [step].
    + apply (wired_initialize env st IH).
    + apply (wired_startMicrophone env st IH).
    + apply (wired_stopMicrophone env st IH).
    + apply (wired_getAudioData env st IH).
    + apply (wired_cleanup env st IH).
Qed.

(** X4. In every state the program can reach, [isActive] alone decides
    whether [getAudioData] takes the inert path: an active manager always
    holds an analyser, and an initialised one holds a context and an
    analyser. *)
Theorem reachable_inert_iff (st : St) :
  reachable st ->
  (inert (snd st) <-> isActive (snd st) = false) /\
  (initialized (snd st) = true ->
   is_Some (audioContext (snd st)) /\ is_Some (analyser (snd st))).
Proof.
  intros Hreach. destruct (reachable_wired st Hreach) as [H1 H2 H3].
  split; [ split | auto ].
  - intros [H | H]; [ exact H | ].
    destruct (isActive (snd st)); [ | reflexivity ].
    destruct (H3 eq_refl) as [a Ha]. congruence.
  - intros H. left. exact H.
Qed.

Lemma reachable_inert_iff_witness :
  (inert (snd (started_state 5000))
   <-> isActive (snd (started_state 5000)) = false) /\
  (initialized (snd (started_state 5000)) = true ->
   is_Some (audioContext (snd (started_state 5000))) /\
   is_Some (analyser (snd (started_state 5000)))).
Proof.
  apply (reachable_inert_iff (started_state 5000)).
  apply reachable_started.
Defined.

(** ** [cleanup] *)

Lemma graph_stopMicrophone
    (x : list AudioContextState * option nat * option AnalyserNode * bool)
    (env : StopEnv) :
  preserves (graph_is x) (stopMicrophone env).
Proof.
  unfold stopMicrophone, stop_tracks, disconnect.
  preserves_split; unfold graph_is; cbn [fst snd]; auto.
Qed.

(** [cleanup] in terms of the state its teardown leaves. *)
Lemma cleanup_run (env : StopEnv) (st : St) :
  cleanup env st =
  (Normal tt,
   let st1 := snd (stopMicrophone env st) in
   (match audioContext (snd st1) with
    | Some c => set_contexts (<[c := closed]> (contexts (fst st1))) (fst st1)
    | None => fst st1
    end,
    set_initialized false
      match audioContext (snd st1) with
      | Some c => set_audioContext None (snd st1)
      | None => snd st1
      end)).
Proof.
  unfold cleanup, try_catch. unfold bind at 1.
  destruct (stopMicrophone env st) as [[[]|e] [w1 m1]];
    unfold close; js_unfold; cbn [fst snd];
    destruct (audioContext m1); reflexivity.
Qed.

(** X5. [cleanup] always returns, even when the teardown of the session
    throws.  It leaves the manager not initialised and without a context,
    closes the context the manager held and no other, and keeps the
    analyser and the stored volume. *)
Theorem cleanup_resets (env : StopEnv) (st : St) :
  outcome (cleanup env st) = Normal tt /\
  initialized (final (cleanup env st)) = false /\
  audioContext (final (cleanup env st)) = None /\
  contexts (final_world (cleanup env st))
    = match audioContext (snd st) with
      | Some c => <[c := closed]> (contexts (fst st))
      | None => contexts (fst st)
      end /\
  analyser (final (cleanup env st)) = analyser (snd st) /\
  prevVolume (final (cleanup env st)) = prevVolume (snd st).
Proof.
  pose proof (graph_stopMicrophone _ env st eq_refl) as Hg.
  pose proof (prevVolume_stopMicrophone _ env st eq_refl) as Hp.
  unfold graph_is, prevVolume_is in Hg, Hp.
  rewrite cleanup_run. unfold outcome, final, final_world. cbn [fst snd].
  destruct (snd (stopMicrophone env st)) as [w1 m1]. cbn [fst snd] in *.
  injection Hg as Hc Hctx Han _. rewrite <- Hctx, <- Hc, <- Han, <- Hp.
  destruct (audioContext m1) eqn:E; cbn; repeat split; exact E.
Qed.

(** X6. When the teardown inside [cleanup] completes (or the session was
    inert), the manager ends inert and [getAudioData] returns volume 0
    from then on; when the teardown throws, the session is still marked
    active after [cleanup]. *)
Theorem cleanup_inert_when_teardown_completes (env : StopEnv) (st : St) :
  (outcome (stopMicrophone env st) = Normal tt ->
   isActive (final (cleanup env st)) = false /\
   forall fenv, exists d,
     getAudioData fenv (snd (cleanup env st))
       = (Normal d, snd (cleanup env st)) /\ volume d = 0) /\
  (forall e, outcome (stopMicrophone env st) = Throw e ->
   isActive (final (cleanup env st)) = true).
Proof.
  assert (Hact : isActive (final (cleanup env st))
                 = isActive (snd (snd (stopMicrophone env st)))).
  { rewrite cleanup_run. unfold final. cbn [fst snd].
    destruct (audioContext _); reflexivity. }
  assert (Hq : isActive (snd (snd (stopMicrophone env st))) = false ->
               forall fenv, exists d,
                 getAudioData fenv (snd (cleanup env st))
                   = (Normal d, snd (cleanup env st)) /\ volume d = 0).
  { intros Hf fenv. eexists. split.
    - apply getAudioData_inert. left. fold (final (cleanup env st)).
      rewrite Hact. exact Hf.
    - reflexivity. }
  rewrite Hact. destruct st as [w m]. unfold outcome.
  destruct (isActive m) eqn:Ha.
  - destruct (stopMicrophone_active env w m Ha)
      as [(w' & Hrun & _) | (e' & w' & m' & Hrun & Ha' & _)].
    + split; [ | intros e; rewrite Hrun; discriminate ].
      intros _.
      assert (Hf : isActive (snd (snd (stopMicrophone env (w, m)))) = false)
        by (rewrite Hrun; reflexivity).
      split; [ exact Hf | exact (Hq Hf) ].
    + rewrite Hrun. cbn [fst snd]. split; [ discriminate | ].
      intros _ _. exact Ha'.
  - assert (Hf : isActive (snd (snd (stopMicrophone env (w, m)))) = false)
      by (rewrite (stopMicrophone_inert env (w, m) Ha); exact Ha).
    split; [ intros _; split; [ exact Hf | exact (Hq Hf) ] | ].
    rewrite (stopMicrophone_inert env (w, m) Ha). discriminate.
Qed.

Lemma cleanup_inert_when_teardown_completes_witness :
  isActive (final (cleanup stop_ok (started_state 5000))) = false /\
  isActive (final (cleanup stop_failing (started_state 5000))) = true.
Proof.
  split.
  - destruct (cleanup_inert_when_teardown_completes stop_ok
                (started_state 5000)) as [H _].
    destruct (H eq_refl) as [H1 _]. exact H1.
  - destruct (cleanup_inert_when_teardown_completes stop_failing
                (started_state 5000)) as [_ H].
    exact (H InvalidStateError eq_refl).
Defined.

(** ** [stopMicrophone] that completes, and after a failure *)

Lemma forEach_stop_length (err : nat -> option exn) (tracks : list readyState) :
  forall i, length (snd (forEach_stop err i tracks)) = length tracks.
Proof.
  induction tracks as [| t tracks IH]; intros i; cbn; [ reflexivity | ].
  destruct (err i); [ reflexivity | ].
  specialize (IH (S i)). destruct (forEach_stop err (S i) tracks).
  cbn in *. congruence.
Qed.

Lemma forEach_stop_quiet (err : nat -> option exn) (tracks : list readyState) :
  (forall i, err i = None) ->
  forall i, forEach_stop err i tracks
            = (None, replicate (length tracks) ended).
Proof.
  intros Hq. induction tracks as [| t tracks IH]; intros i; cbn;
    [ reflexivity | ].
  rewrite Hq, IH. reflexivity.
Qed.

(** X7. A [stopMicrophone] that returns on an active session has ended
    every track of the held stream and touched no other stream; the
    manager is inert and holds neither stream nor source node, and
    [getAudioData] then returns volume 0 without changing anything.  When
    no stream was capturing behind the manager's back, none captures
    afterwards. *)
Theorem stopMicrophone_releases (env : StopEnv) (st : St) :
  isActive (snd st) = true ->
  outcome (stopMicrophone env st) = Normal tt ->
  isActive (final (stopMicrophone env st)) = false /\
  stream (final (stopMicrophone env st)) = None /\
  microphone (final (stopMicrophone env st)) = None /\
  (forall h tracks,
     stream (snd st) = Some h -> streams (fst st) !! h = Some tracks ->
     streams (final_world (stopMicrophone env st)) !! h
       = Some (replicate (length tracks) ended)) /\
  (forall h, stream (snd st) <> Some h ->
     streams (final_world (stopMicrophone env st)) !! h
       = streams (fst st) !! h) /\
  (no_leak st -> active_streams (final_world (stopMicrophone env st)) = []) /\
  (forall fenv, exists d,
     getAudioData fenv (snd (stopMicrophone env st))
       = (Normal d, snd (stopMicrophone env st)) /\ volume d = 0).
Proof.
  destruct st as [w m]. cbn [fst snd]. intros Hact.
  destruct (stopMicrophone_active env w m Hact)
    as [(w' & Hrun & Hss & _) | (e & w' & m' & Hrun & _)];
    rewrite Hrun; unfold outcome, final, final_world; cbn [fst snd];
    [ intros _ | discriminate ].
  split; [ reflexivity | ]. split; [ reflexivity | ].
  split; [ reflexivity | ]. rewrite Hss. unfold released.
  split; [ | split; [ | split ] ].
  - intros h tracks Hs Hl. rewrite Hs, Hl. cbn [from_option id].
    apply list_lookup_insert_eq. apply lookup_lt_Some in Hl. exact Hl.
  - intros h Hne. destruct (stream m) as [h0|]; [ | reflexivity ].
    apply list_lookup_insert_ne. congruence.
  - intros Hno. apply active_streams_quiet. rewrite Hss.
    intros h tracks Hl. apply (released_quiet w m Hno h tracks).
    unfold released_if_active. rewrite Hact. exact Hl.
  - intros fenv. eexists. split.
    + apply getAudioData_inert. left. reflexivity.
    + reflexivity.
Qed.

Lemma stopMicrophone_releases_witness :
  isActive (final (stopMicrophone stop_ok (started_state 5000))) = false /\
  stream (final (stopMicrophone stop_ok (started_state 5000))) = None /\
  streams (final_world (stopMicrophone stop_ok (started_state 5000)))
    !! 0%nat = Some [ended] /\
  active_streams (final_world (stopMicrophone stop_ok (started_state 5000)))
    = [].
Proof.
  destruct (stopMicrophone_releases stop_ok (started_state 5000)
              eq_refl eq_refl)
    as (H1 & H2 & _ & H4 & _ & H6 & _).
  split; [ exact H1 | ]. split; [ exact H2 | ].
  split; [ exact (H4 0%nat [live] eq_refl eq_refl) | ].
  apply H6. intros h Hcap. split; [ reflexivity | ].
  destruct Hcap as (tracks & Hl & _).
  destruct h as [| h]; [ reflexivity | discriminate Hl ].
Defined.

(** What a throwing teardown leaves: either a [stop()] threw, and the
    stream is still held with as many tracks as before; or [disconnect()]
    threw, and the stream is released with every track ended while the
    source node is still held. *)
Lemma stopMicrophone_throws (env : StopEnv) (w : World) (m : AudioManager)
    (e : exn) (w' : World) (m' : AudioManager) :
  isActive m = true ->
  stopMicrophone env (w, m) = (Throw e, (w', m')) ->
  isActive m' = true /\
  ((exists h tracks',
      stream m = Some h /\ stream m' = Some h /\
      microphone m' = microphone m /\
      streams w' = <[h := tracks']> (streams w) /\
      length tracks' = length (default [] (streams w !! h)))
   \/
   (stream m' = None /\ is_Some (microphone m') /\
    streams w' = released m (streams w))).
Proof.
  intros Hact. destruct w as [ss cs out].
  destruct m as [ini act ctx an mic al pv s r]. cbn in Hact. subst act.
  unfold stopMicrophone, stop_tracks, disconnect, released.
  js_unfold. cbn [fst snd isActive stream microphone negb streams].
  destruct s as [h|]; cbn.
  - pose proof (forEach_stop_length (track_stop_error env)
                  (default [] (ss !! h)) 0) as Hlen.
    destruct (forEach_stop (track_stop_error env) 0 (default [] (ss !! h)))
      as [[e0|] tracks'] eqn:E; cbn in *.
    + intros H. injection H as <- <- <-. cbn. split; [ reflexivity | ].
      left. exists h, tracks'. auto.
    + apply forEach_stop_completes in E. subst tracks'.
      destruct mic as [node|]; cbn; [ | discriminate ].
      destruct (disconnect_error env) as [e0|]; cbn; [ | discriminate ].
      intros H. injection H as <- <- <-. cbn. split; [ reflexivity | ].
      right. eauto.
  - destruct mic as [node|]; cbn; [ | discriminate ].
    destruct (disconnect_error env) as [e0|]; cbn; [ | discriminate ].
    intros H. injection H as <- <- <-. cbn. split; [ reflexivity | ].
    right. eauto.
Qed.

(** On a quiet platform the teardown of an active session returns. *)
Lemma stopMicrophone_quiet (env : StopEnv) (w : World) (m : AudioManager) :
  quiet env -> isActive m = true ->
  exists w',
    stopMicrophone env (w, m) =
      (Normal tt,
       (w', set_isActive false (set_microphone None (set_stream None m))))
    /\ streams w' = released m (streams w)
    /\ contexts w' = contexts w.
Proof.
  intros [Hq Hd] Hact.
  destruct (stopMicrophone_active env w m Hact)
    as [(w' & Hrun & Hss & Hc & _) | (e & w' & m' & Hrun & _)];
    [ eauto | exfalso ].
  revert Hrun. destruct w as [ss cs out].
  destruct m as [ini act ctx an mic al pv s r]. cbn in Hact. subst act.
  unfold stopMicrophone, stop_tracks, disconnect.
  js_unfold. cbn [fst snd isActive stream microphone negb streams].
  rewrite Hd. destruct s as [h|]; cbn.
  - rewrite (forEach_stop_quiet _ _ Hq). cbn.
    destruct mic; cbn; discriminate.
  - destruct mic; cbn; discriminate.
Qed.

(** X8. After a teardown that threw, a second [stopMicrophone] on a quiet
    platform completes it: it returns, the manager is inert and holds
    neither stream nor source node, and every track of the stream the
    session held has ended. *)
Theorem stopMicrophone_retry (env1 env2 : StopEnv) (st : St) (e : exn) :
  isActive (snd st) = true ->
  outcome (stopMicrophone env1 st) = Throw e ->
  quiet env2 ->
  let st1 := snd (stopMicrophone env1 st) in
  outcome (stopMicrophone env2 st1) = Normal tt /\
  isActive (final (stopMicrophone env2 st1)) = false /\
  stream (final (stopMicrophone env2 st1)) = None /\
  microphone (final (stopMicrophone env2 st1)) = None /\
  (forall h tracks,
     stream (snd st) = Some h -> streams (fst st) !! h = Some tracks ->
     streams (final_world (stopMicrophone env2 st1)) !! h
       = Some (replicate (length tracks) ended)).
Proof.
  destruct st as [w m]. cbn [fst snd]. intros Hact Hout Hq.
  destruct (stopMicrophone env1 (w, m)) as [r [w1 m1]] eqn:Hrun.
  unfold outcome in Hout. cbn [fst snd] in Hout. subst r. cbn [snd].
  destruct (stopMicrophone_throws env1 w m e w1 m1 Hact Hrun)
    as [Hact1 Hcase].
  destruct (stopMicrophone_quiet env2 w1 m1 Hq Hact1)
    as (w2 & Hrun2 & Hss2 & _).
  rewrite Hrun2. unfold outcome, final, final_world. cbn [fst snd].
  split; [ reflexivity | ]. split; [ reflexivity | ].
  split; [ reflexivity | ]. split; [ reflexivity | ].
  intros h tracks Hs Hl. rewrite Hss2. unfold released.
  assert (Hlt : (h < length (streams w))%nat)
    by (apply lookup_lt_Some in Hl; exact Hl).
  destruct Hcase as [(h' & tracks' & Hs0 & Hs1 & _ & Hss1 & Hlen)
                    | (Hs1 & _ & Hss1)].
  - assert (h' = h) by congruence. subst h'.
    rewrite Hs1, Hss1.
    rewrite (list_lookup_insert_eq (streams w) h tracks' Hlt).
    cbn [from_option id]. rewrite Hlen, Hl. cbn [from_option id].
    apply list_lookup_insert_eq. rewrite length_insert. exact Hlt.
  - rewrite Hs1, Hss1. unfold released. rewrite Hs, Hl.
    cbn [from_option id]. apply list_lookup_insert_eq. exact Hlt.
Qed.

Lemma stopMicrophone_retry_witness :
  let st1 := snd (stopMicrophone stop_failing (started_state 5000)) in
  outcome (stopMicrophone stop_ok st1) = Normal tt /\
  isActive (final (stopMicrophone stop_ok st1)) = false /\
  stream (final (stopMicrophone stop_ok st1)) = None /\
  streams (final_world (stopMicrophone stop_ok st1)) !! 0%nat
    = Some [ended].
Proof.
  cbv zeta.
  destruct (stopMicrophone_retry stop_failing stop_ok (started_state 5000)
              InvalidStateError eq_refl eq_refl
              (conj (fun _ => eq_refl) eq_refl))
    as (H1 & H2 & H3 & _ & H5).
  split; [ exact H1 | ]. split; [ exact H2 | ]. split; [ exact H3 | ].
  exact (H5 0%nat [live] eq_refl eq_refl).
Defined.

(** ** [startMicrophone] *)

Lemma initialize_returns (env : InitEnv) (st : St) :
  new_AudioContext_error env = None -> createAnalyser_error env = None ->
  fst (initialize env st) = Normal tt.
Proof.
  intros H1 H2. destruct st as [w m].
  unfold initialize, new_AudioContext, createAnalyser, assign_analyser.
  rewrite H1, H2. js_unfold. cbn [fst snd].
  destruct (initialized m); reflexivity.
Qed.

(** The [try] block of [startMicrophone] on a platform that raises
    nothing, from a state whose teardown has run. *)
Lemma startMicrophone_granted (env : StartEnv) (w : World) (m : AudioManager)
    (w2 : World) (m2 : AudioManager) (n : nat) :
  initialized m = true ->
  stopMicrophone (stop_env env) (w, m) = (Normal tt, (w2, m2)) ->
  is_Some (audioContext m2) ->
  getUserMedia_result env = inr (S n) ->
  createMediaStreamSource_error env = None ->
  connect_error env = None ->
  outcome (startMicrophone env (w, m)) = Normal tt.
Proof.
  intros Hini Hstop [c Hctx] Hgum Hsrc Hcon.
  unfold startMicrophone. unfold bind at 1, this at 1. cbn [snd].
  rewrite Hini. cbn [negb]. unfold bind at 1, ret at 1.
  unfold try_catch, bind at 1. rewrite Hstop.
  unfold getUserMedia, read_audioTrack, createMediaStreamSource, connect.
  rewrite Hgum, Hsrc, Hcon. js_unfold. cbn.
  rewrite list_lookup_middle by reflexivity. cbn. rewrite Hctx.
  reflexivity.
Qed.

(** X9. From every state the program can reach, [startMicrophone] on a
    platform that raises nothing and grants a stream with an audio track
    returns, with the manager initialised and active, the granted stream
    held with its tracks live, and the metrics a new window: peak,
    average, sum and count are 0, the interval is 1000 ms and the window
    begins at the time of the call. *)
Theorem startMicrophone_cooperative (env : StartEnv) (st : St) :
  reachable st -> cooperative env ->
  outcome (startMicrophone env st) = Normal tt /\
  initialized (final (startMicrophone env st)) = true /\
  isActive (final (startMicrophone env st)) = true /\
  stream (final (startMicrophone env st)) = Some (length (streams (fst st))) /\
  (exists n,
     streams (final_world (startMicrophone env st))
       !! length (streams (fst st)) = Some (replicate (S n) live)) /\
  peakVolume (metrics (final (startMicrophone env st))) = 0%Q /\
  averageVolume (metrics (final (startMicrophone env st))) = 0%Q /\
  volumeSum (metrics (final (startMicrophone env st))) = 0%Q /\
  sampleCount (metrics (final (startMicrophone env st))) = 0%Z /\
  lastUpdate (metrics (final (startMicrophone env st))) = start_now env /\
  updateInterval (metrics (final (startMicrophone env st))) = 1000%Z.
Proof.
  intros Hreach (Hc1 & Hc2 & Hq & (n & Hgum) & Hsrc & Hcon).
  assert (Hout : outcome (startMicrophone env st) = Normal tt).
  { destruct st as [w m].
    destruct (initialized m) eqn:Hini.
    - pose proof (reachable_wired _ Hreach) as Hw. cbn [snd] in Hw.
      pose proof (graph_stopMicrophone _ (stop_env env) (w, m) eq_refl) as Hg.
      unfold graph_is in Hg. cbn [fst snd] in Hg.
      assert (Hstop : fst (stopMicrophone (stop_env env) (w, m)) = Normal tt).
      { destruct (isActive m) eqn:Ha.
        - destruct (stopMicrophone_quiet (stop_env env) w m Hq Ha)
            as (w' & -> & _). reflexivity.
        - rewrite (stopMicrophone_inert (stop_env env) (w, m) Ha).
          reflexivity. }
      destruct (stopMicrophone (stop_env env) (w, m)) as [r [w2 m2]] eqn:Es.
      cbn [fst snd] in *. subst r. injection Hg as _ Hctx _ _.
      apply (startMicrophone_granted env w m w2 m2 n Hini Es); auto.
      rewrite Hctx. apply (wired_context _ Hw Hini).
    - pose proof (initialize_returns (init_env env) (w, m) Hc1 Hc2) as Hi.
      pose proof (wired_initialize (init_env env) (w, m)
                    (reachable_wired _ Hreach)) as Hw.
      destruct (initialize_effect (init_env env) w m)
        as (r & w1 & m1 & Hrun & _ & _ & _ & _ & _ & _ & _ & Hok & _).
      rewrite Hrun in Hi, Hw. cbn [fst snd] in Hi, Hw. subst r.
      specialize (Hok eq_refl). unfold on_manager in Hw. cbn [snd] in Hw.
      pose proof (graph_stopMicrophone _ (stop_env env) (w1, m1) eq_refl)
        as Hg.
      unfold graph_is in Hg. cbn [fst snd] in Hg.
      assert (Hstop : fst (stopMicrophone (stop_env env) (w1, m1))
                      = Normal tt).
      { destruct (isActive m1) eqn:Ha.
        - destruct (stopMicrophone_quiet (stop_env env) w1 m1 Hq Ha)
            as (w' & -> & _). reflexivity.
        - rewrite (stopMicrophone_inert (stop_env env) (w1, m1) Ha).
          reflexivity. }
      destruct (stopMicrophone (stop_env env) (w1, m1)) as [r [w2 m2]] eqn:Es.
      cbn [fst snd] in *. subst r. injection Hg as _ Hctx _ _.
      assert (H1 : outcome (startMicrophone env (w1, m1)) = Normal tt).
      { apply (startMicrophone_granted env w1 m1 w2 m2 n Hok Es); auto.
        rewrite Hctx. apply (wired_context _ Hw Hok). }
      revert H1. unfold startMicrophone.
      unfold bind at 1, this at 1. cbn [snd]. rewrite Hok. cbn [negb].
      unfold bind at 1, ret at 1. intros H1.
      unfold bind at 1, this at 1. cbn [snd]. rewrite Hini. cbn [negb].
      unfold bind at 1. rewrite Hrun. exact H1. }
  split; [ exact Hout | ].
  unfold outcome, final, final_world in *.
  destruct (startMicrophone env st) as [r st'] eqn:Hrun.
  cbn [fst snd] in *. subst r.
  destruct (startMicrophone_acquired env st st' Hrun)
    as (n' & Hs & Hl & _ & Ha & Hi & Hm).
  split; [ exact Hi | ]. split; [ exact Ha | ]. split; [ exact Hs | ].
  split; [ exists n'; exact Hl | ].
  rewrite Hm. repeat split.
Qed.

Lemma startMicrophone_cooperative_witness :
  let st := step (call_cleanup stop_failing) (started_state 5000) in
  outcome (startMicrophone (start_ok 9000) st) = Normal tt /\
  initialized (final (startMicrophone (start_ok 9000) st)) = true /\
  isActive (final (startMicrophone (start_ok 9000) st)) = true /\
  stream (final (startMicrophone (start_ok 9000) st))
    = Some (length (streams (fst st))) /\
  sampleCount (metrics (final (startMicrophone (start_ok 9000) st))) = 0%Z /\
  lastUpdate (metrics (final (startMicrophone (start_ok 9000) st))) = 9000%Z.
Proof.
  cbv zeta.
  assert (Hc : cooperative (start_ok 9000)).
  { unfold cooperative, quiet. cbn.
    repeat split; try reflexivity. exists 0%nat. reflexivity. }
  assert (Hr : reachable (step (call_cleanup stop_failing)
                            (started_state 5000)))
    by apply reachable_step, reachable_started.
  destruct (startMicrophone_cooperative (start_ok 9000) _ Hr Hc)
    as (H1 & H2 & H3 & H4 & _ & _ & _ & _ & H5 & H6 & _).
  split; [ exact H1 | ]. split; [ exact H2 | ]. split; [ exact H3 | ].
  split; [ exact H4 | ]. split; [ exact H5 | exact H6 ].
Defined.

(** X10. When access to the device is refused on an initialised inert
    manager, [startMicrophone] rethrows the refusal and changes nothing
    but the console, which gets the line of the failure: the manager is
    what it was, no stream is created, and no context is touched. *)
Theorem startMicrophone_refusal_changes_nothing (env : StartEnv) (st : St)
    (e : exn) :
  initialized (snd st) = true -> isActive (snd st) = false ->
  getUserMedia_result env = inl e ->
  outcome (startMicrophone env st) = Throw e /\
  final (startMicrophone env st) = snd st /\
  streams (final_world (startMicrophone env st)) = streams (fst st) /\
  contexts (final_world (startMicrophone env st)) = contexts (fst st) /\
  console (final_world (startMicrophone env st))
    = console (fst st) ++ [error_start e].
Proof.
  destruct st as [w m]. cbn [fst snd]. intros Hini Hact Hgum.
  rewrite (startMicrophone_refused env w m e Hini Hact Hgum).
  unfold outcome, final, final_world. cbn [fst snd].
  destruct w. cbn. repeat split.
Qed.

Lemma startMicrophone_refusal_changes_nothing_witness :
  outcome (startMicrophone (start_denied 7000) initialized_state)
    = Throw NotAllowedError /\
  final (startMicrophone (start_denied 7000) initialized_state)
    = snd initialized_state /\
  streams (final_world (startMicrophone (start_denied 7000)
                          initialized_state))
    = streams (fst initialized_state).
Proof.
  destruct (startMicrophone_refusal_changes_nothing (start_denied 7000)
              initialized_state NotAllowedError)
    as (H1 & H2 & H3 & _).
  - reflexivity.
  - reflexivity.
  - reflexivity.
  - split; [ exact H1 | ]. split; [ exact H2 | exact H3 ].
Defined.

(** X11. A restart that is refused ends the running session: when
    [startMicrophone] is called on an active, initialised manager, the
    teardown completes and access to the device is then refused, the error
    reaches the caller after being logged, and the manager is left inert
    with no stream, every track of the former stream ended. *)
Theorem startMicrophone_refused_restart (env : StartEnv) (st : St) (e : exn) :
  initialized (snd st) = true -> isActive (snd st) = true ->
  outcome (stopMicrophone (stop_env env) st) = Normal tt ->
  getUserMedia_result env = inl e ->
  outcome (startMicrophone env st) = Throw e /\
  isActive (final (startMicrophone env st)) = false /\
  stream (final (startMicrophone env st)) = None /\
  microphone (final (startMicrophone env st)) = None /\
  streams (final_world (startMicrophone env st))
    = released (snd st) (streams (fst st)) /\
  last (console (final_world (startMicrophone env st)))
    = Some (error_start e).
Proof.
  destruct st as [w m]. cbn [fst snd]. intros Hini Hact Hstop Hgum.
  destruct (stopMicrophone_active (stop_env env) w m Hact)
    as [(w' & Hrun & Hss & _) | (e' & w' & m' & Hrun & _)];
    rewrite Hrun in Hstop; [ clear Hstop | discriminate Hstop ].
  assert (Heq : startMicrophone env (w, m) =
                (Throw e,
                 (set_console (console w' ++ [error_start e]) w',
                  set_isActive false
                    (set_microphone None (set_stream None m))))).
  { unfold startMicrophone. unfold bind at 1, this at 1. cbn [snd].
    rewrite Hini. cbn [negb]. unfold bind at 1, ret at 1.
    unfold try_catch, bind at 1. rewrite Hrun.
    unfold bind at 1, getUserMedia. rewrite Hgum. unfold throw at 1.
    unfold bind at 1, console_write, platform. cbn [fst snd].
    unfold bind at 1.
    match goal with
    | |- context [stopMicrophone (catch_env env) ?s] =>
        rewrite (stopMicrophone_inert (catch_env env) s eq_refl)
    end.
    reflexivity. }
  rewrite Heq. unfold outcome, final, final_world. cbn [fst snd].
  repeat split; [ exact Hss | apply last_snoc ].
Qed.

Lemma startMicrophone_refused_restart_witness :
  outcome (startMicrophone (start_denied 9000) (started_state 5000))
    = Throw NotAllowedError /\
  isActive (final (startMicrophone (start_denied 9000) (started_state 5000)))
    = false /\
  stream (final (startMicrophone (start_denied 9000) (started_state 5000)))
    = None /\
  streams (final_world (startMicrophone (start_denied 9000)
                          (started_state 5000)))
    = [[ended]].
Proof.
  destruct (startMicrophone_refused_restart (start_denied 9000)
              (started_state 5000) NotAllowedError
              eq_refl eq_refl eq_refl eq_refl)
    as (H1 & H2 & H3 & _ & H5 & _).
  split; [ exact H1 | ]. split; [ exact H2 | ]. split; [ exact H3 | ].
  exact H5.
Defined.

(** ** The smoothed volume over the whole life of the manager *)

(** X12. In every state the program can reach, through any calls and any
    answers of the platform, [getAudioData] returns a volume of [0,1] and
    leaves a stored volume of [0,1]. *)
Theorem reachable_volume_in_unit_interval (env : FrameEnv) (st : St) :
  reachable st ->
  exists d,
    outcome (getAudioData env st) = Normal d /\
    0 <= volume d <= 1 /\
    0 <= prevVolume (final (getAudioData env st)) <= 1.
Proof.
  intros Hreach.
  pose proof (reachable_configured st Hreach) as Hconf.
  destruct (getAudioData_bounded env st) as (d & Hd & Hv & Hp & _).
  - rewrite (configured_smoothing _ Hconf). lra.
  - apply reachable_prevVolume, Hreach.
  - intros a Han. rewrite (configured_bins _ a Hconf Han). lia.
  - exists d. auto.
Qed.

Lemma reachable_volume_in_unit_interval_witness :
  exists d,
    outcome (getAudioData (frame_loud 5016) (started_state 5000)) = Normal d /\
    0 <= volume d <= 1 /\
    0 <= prevVolume (final (getAudioData (frame_loud 5016)
                              (started_state 5000))) <= 1.
Proof.
  apply (reachable_volume_in_unit_interval (frame_loud 5016)
           (started_state 5000)).
  apply reachable_started.
Defined.

(** X15. No method but [getAudioData] touches the stored volume: through
    any run of [initialize], [startMicrophone], [stopMicrophone] and
    [cleanup] calls, whatever their outcome, [prevVolume] is what it was,
    so a restarted session resumes smoothing from the last volume of the
    previous one. *)
Theorem prevVolume_survives_lifecycle (cs : list call) (st : St) :
  Forall (fun c => forall env, c <> call_getAudioData env) cs ->
  prevVolume (snd (steps cs st)) = prevVolume (snd st).
Proof.
  revert st. induction cs as [| c cs IH]; intros st Hcs; [ reflexivity | ].
  inversion Hcs as [| ? ? Hc Hrest]; subst. cbn [steps fold_left].
  change (fold_left (fun st c => step c st) cs (step c st))
    with (steps cs (step c st)).
  rewrite (IH _ Hrest). apply prevVolume_lifecycle, Hc.
Qed.

Lemma prevVolume_survives_lifecycle_witness :
  let st := snd (getAudioData (frame_loud 5016) (started_state 5000)) in
  prevVolume
    (snd (steps [call_stopMicrophone stop_ok; call_cleanup stop_ok;
                 call_startMicrophone (start_ok 9000)] st))
  = prevVolume (snd st).
Proof.
  cbv zeta.
  apply (prevVolume_survives_lifecycle
           [call_stopMicrophone stop_ok; call_cleanup stop_ok;
            call_startMicrophone (start_ok 9000)]).
  repeat constructor; discriminate.
Defined.

(** ** The rolling metrics over the whole life of the manager *)

Lemma fresh_metrics_ok (now : Z) : metrics_ok (fresh_metrics now).
Proof.
  split; cbn [fresh_metrics peakVolume averageVolume sampleCount volumeSum];
    try lia; change (inject_Z 0) with 0; lra.
Qed.

Lemma window_ok (now : Z) (v : Q) (r : Metrics) :
  0 <= v <= 1 -> metrics_ok r -> metrics_ok (window now v r).
Proof.
  intros Hv [Hpk Hav Hc Hs]. unfold window.
  assert (Hinj : inject_Z (sampleCount r + 1) == inject_Z (sampleCount r) + 1).
  { rewrite inject_Z_plus. reflexivity. }
  destruct (_ >=? _)%Z; split;
    cbn [peakVolume averageVolume sampleCount volumeSum].
  - exact Hv.
  - assert (Hpos : 0 < inject_Z (sampleCount r + 1)).
    { change 0 with (inject_Z 0). rewrite <- Zlt_Qlt. lia. }
    split.
    + apply Qle_shift_div_l; [ exact Hpos | ]. lra.
    + apply Qle_shift_div_r; [ exact Hpos | ]. rewrite Hinj. lra.
  - lia.
  - change (inject_Z 1) with 1. exact Hv.
  - destruct (Q.max_spec (peakVolume r) v) as [[_ ->] | [_ ->]]; lra.
  - exact Hav.
  - lia.
  - rewrite Hinj. lra.
Qed.

Lemma metrics_ok_stopMicrophone (env : StopEnv) :
  preserves (on_manager (fun m => metrics_ok (metrics m)))
    (stopMicrophone env).
Proof.
  unfold stopMicrophone, stop_tracks, disconnect.
  preserves_split; unfold on_manager; cbn [snd]; auto.
Qed.

Lemma metrics_ok_initialize (env : InitEnv) :
  preserves (on_manager (fun m => metrics_ok (metrics m))) (initialize env).
Proof.
  unfold initialize, new_AudioContext, createAnalyser.
  preserves_split; unfold on_manager; cbn [snd]; auto.
Qed.

Lemma metrics_ok_startMicrophone (env : StartEnv) :
  preserves (on_manager (fun m => metrics_ok (metrics m)))
    (startMicrophone env).
Proof.
  unfold startMicrophone, getUserMedia, read_audioTrack,
    createMediaStreamSource, connect.
  preserves_split;
    try apply metrics_ok_initialize; try apply metrics_ok_stopMicrophone;
    unfold on_manager; cbn [snd]; auto.
  intros w m _. apply fresh_metrics_ok.
Qed.

Lemma metrics_ok_cleanup (env : StopEnv) :
  preserves (on_manager (fun m => metrics_ok (metrics m))) (cleanup env).
Proof.
  unfold cleanup, close.
  preserves_split; try apply metrics_ok_stopMicrophone;
    unfold on_manager; cbn [snd]; auto.
Qed.

Lemma metrics_ok_lifecycle (c : call) (st : St) :
  (forall env, c <> call_getAudioData env) ->
  metrics_ok (metrics (snd st)) -> metrics_ok (metrics (snd (step c st))).
Proof.
  intros Hc H. destruct c; cbn [step].
  - apply (metrics_ok_initialize env st H).
  - apply (metrics_ok_startMicrophone env st H).
  - apply (metrics_ok_stopMicrophone env st H).
  - destruct (Hc env eq_refl).
  - apply (metrics_ok_cleanup env st H).
Qed.

Lemma reachable_metrics_ok (st : St) :
  reachable st -> metrics_ok (metrics (snd st)).
Proof.
  induction 1 as [| c st Hreach IH].
  - exact (fresh_metrics_ok 0).
  - destruct c; try (apply metrics_ok_lifecycle; [ discriminate | exact IH ]).
    cbn [step].
    pose proof (reachable_configured st Hreach) as Hconf.
    destruct (getAudioData_cases env st)
      as [[_ Hr] | (a & _ & Han & _ & Hf)].
    + rewrite Hr. exact IH.
    + cbn zeta in Hf. unfold final in Hf. rewrite Hf. cbn [metrics set_metrics].
      apply window_ok; [ | exact IH ].
      apply smoothed_bounds.
      * rewrite (configured_smoothing _ Hconf). lra.
      * apply reachable_prevVolume, Hreach.
      * apply rawVolume_of_bounds. rewrite length_snapshot.
        rewrite (configured_bins _ a Hconf Han). lia.
Qed.

(** X16. In every state the program can reach, the rolling metrics are in
    range: peak and average in [0,1], a sample count that is not
    negative, and a volume sum between 0 and the sample count. *)
Theorem reachable_metrics_in_range (st : St) :
  reachable st ->
  0 <= peakVolume (metrics (snd st)) <= 1 /\
  0 <= averageVolume (metrics (snd st)) <= 1 /\
  (0 <= sampleCount (metrics (snd st)))%Z /\
  0 <= volumeSum (metrics (snd st))
    <= inject_Z (sampleCount (metrics (snd st))).
Proof.
  intros Hreach. destruct (reachable_metrics_ok st Hreach) as [H1 H2 H3 H4].
  auto.
Qed.

Lemma reachable_metrics_in_range_witness :
  let st := step (call_getAudioData (frame_loud 6000)) (started_state 5000) in
  0 <= peakVolume (metrics (snd st)) <= 1 /\
  0 <= averageVolume (metrics (snd st)) <= 1 /\
  (0 <= sampleCount (metrics (snd st)))%Z /\
  0 <= volumeSum (metrics (snd st))
    <= inject_Z (sampleCount (metrics (snd st))).
Proof.
  apply (reachable_metrics_in_range
           (step (call_getAudioData (frame_loud 6000)) (started_state 5000))).
  apply reachable_step, reachable_started.
Defined.

(** X17. After every [getAudioData] call on a reachable active session,
    the metrics returned with the volume are those now stored, the
    returned volume does not exceed their peak, they count at least one
    sample, and their window began less than 1000 ms before the time of
    the call. *)
Theorem getAudioData_metrics_after (env : FrameEnv) (st : St) :
  reachable st -> isActive (snd st) = true ->
  exists d r',
    outcome (getAudioData env st) = Normal d /\
    metrics_field d = Some r' /\
    metrics (final (getAudioData env st)) = r' /\
    volume d <= peakVolume r' /\
    (1 <= sampleCount r')%Z /\
    (frame_now env - lastUpdate r' < 1000)%Z.
Proof.
  intros Hreach Hact.
  pose proof (reachable_configured st Hreach) as Hconf.
  pose proof (reachable_metrics_ok st Hreach) as Hok.
  pose proof (reachable_wired st Hreach) as Hw.
  destruct (wired_active _ Hw Hact) as [a Han].
  destruct st as [w m]. cbn [snd] in *.
  rewrite (getAudioData_active env w m a Hact Han).
  unfold outcome, final. cbn [fst snd].
  do 2 eexists. split; [ reflexivity | ]. split; [ reflexivity | ].
  split; [ reflexivity | ].
  set (v := smoothed m (rawVolume_of (snapshot a env))).
  unfold window. rewrite (configured_interval _ Hconf).
  destruct (Z.geb_spec (frame_now env - lastUpdate (metrics m)) 1000)
    as [Hge | Hlt]; cbn [volume peakVolume sampleCount lastUpdate].
  - split; [ apply Qle_refl | ]. split; lia.
  - split; [ apply Q.le_max_r | split; [ | exact Hlt ] ].
    pose proof (metrics_count _ Hok). lia.
Qed.

Lemma getAudioData_metrics_after_witness :
  exists d r',
    outcome (getAudioData (frame_loud 5016) (started_state 5000))
      = Normal d /\
    metrics_field d = Some r' /\
    metrics (final (getAudioData (frame_loud 5016) (started_state 5000)))
      = r' /\
    volume d <= peakVolume r' /\
    (1 <= sampleCount r')%Z /\
    (frame_now (frame_loud 5016) - lastUpdate r' < 1000)%Z.
Proof.
  apply (getAudioData_metrics_after (frame_loud 5016) (started_state 5000)).
  - apply reachable_started.
  - reflexivity.
Defined.




(** * The sketches' handlers *)

Lemma page_invariant_initial : page_invariant initial.
Proof. split; [ exact configured_constructor | cbn; lra ]. Qed.

Lemma page_invariant_lifecycle {A} (c : Js A) :
  preserves (on_manager configured) c ->
  (forall x, preserves (prevVolume_is x) c) ->
  preserves page_invariant c.
Proof.
  intros Hc Hp st [H1 H2]. split.
  - apply (Hc st H1).
  - rewrite (Hp (prevVolume (snd st)) st eq_refl). exact H2.
Qed.

Lemma page_invariant_handle (ev : event) :
  preserves page_invariant (handle ev) /\
  forall st, page_invariant st -> handled (fst (handle ev st)).
Proof.
  destruct ev as [env | env | env | env]; cbn [handle].
  - split.
    + apply page_invariant_lifecycle.
      * unfold onStartClick. preserves_split;
          try apply configured_startMicrophone; configured_side.
      * intros x. unfold onStartClick. preserves_split;
          try apply prevVolume_startMicrophone;
          unfold prevVolume_is; cbn [snd]; auto.
    + intros st _. unfold onStartClick, try_catch, bind.
      destruct (startMicrophone env st) as [[[]|e] st']; exact I.
  - split.
    + apply page_invariant_lifecycle.
      * unfold onStopClick. preserves_split;
          try apply configured_stopMicrophone; configured_side.
      * intros x. unfold onStopClick. preserves_split;
          try apply prevVolume_stopMicrophone;
          unfold prevVolume_is; cbn [snd]; auto.
    + intros st _. unfold onStopClick, try_catch, bind.
      destruct (stopMicrophone env st) as [[[]|e] st']; exact I.
  - assert (H : forall st, page_invariant st ->
              page_invariant (snd (getAudioData env st)) /\
              exists d, fst (getAudioData env st) = Normal d /\
                        0 <= volume d <= 1).
    { intros st [Hconf Hp].
      destruct (getAudioData_bounded env st) as (d & Hd & Hv & Hp' & _).
      - rewrite (configured_smoothing _ Hconf). lra.
      - exact Hp.
      - intros a Han. rewrite (configured_bins _ a Hconf Han). lia.
      - split; [ split; [ apply (configured_getAudioData env st Hconf)
                        | exact Hp' ] | eauto ]. }
    split.
    + intros st Hst. destruct (H st Hst) as [Hinv (d & Hd & _)].
      unfold frame_volume, bind.
      destruct (getAudioData env st) as [r st']. cbn [fst snd] in *.
      subst r. exact Hinv.
    + intros st Hst. destruct (H st Hst) as [_ (d & Hd & Hv)].
      unfold frame_volume, bind.
      destruct (getAudioData env st) as [r st']. cbn [fst snd] in *.
      subst r. cbn.
      destruct (Qeq_bool (volume d) 0); [ lra | exact Hv ].
  - split.
    + apply page_invariant_lifecycle.
      * unfold onUnload. preserves_split; apply configured_cleanup.
      * intros x. unfold onUnload. preserves_split;
          apply prevVolume_cleanup.
    + intros st _. unfold onUnload, bind. rewrite cleanup_run. exact I.
Qed.

(** X19. On a page that wires the manager as the sketches do, whatever
    the order of clicks on "Start Microphone" and "Stop Microphone",
    animation frames and [unload] events, and whatever the platform
    answers, no handler throws, and the volume every frame reads (with
    its [|| 0]) lies in [0,1]. *)
Theorem page_handlers_safe (evs : list event) :
  length (fst (page evs initial)) = length evs /\
  Forall handled (fst (page evs initial)).
Proof.
  assert (H : forall st, page_invariant st ->
            length (fst (page evs st)) = length evs /\
            Forall handled (fst (page evs st))).
  { induction evs as [| ev evs IH]; intros st Hst; cbn [page].
    - split; [ reflexivity | constructor ].
    - destruct (page_invariant_handle ev) as [Hkeep Hret].
      specialize (Hkeep st Hst). specialize (Hret st Hst).
      destruct (handle ev st) as [r st']. cbn [fst snd] in *.
      specialize (IH st' Hkeep).
      destruct (page evs st') as [rs st'']. cbn [fst snd] in *.
      destruct IH as [Hlen Hall].
      split; [ cbn; lia | constructor; assumption ]. }
  apply H, page_invariant_initial.
Qed.

(** * The bouncing agents *)

(** A frame moves the agent by its velocity and then flips the velocity
    of an axis on which the new position is on or beyond an edge. *)
Lemma agent_frame_x (w h : Q) (a : Agent.t) :
  Agent.x (Agent.pos (Agent.frame w h a))
    = Agent.x (Agent.pos a) + Agent.x (Agent.vel a) /\
  Agent.x (Agent.vel (Agent.frame w h a))
    = (if Qle_bool (Agent.x (Agent.pos a) + Agent.x (Agent.vel a)) 0
          || Qle_bool w (Agent.x (Agent.pos a) + Agent.x (Agent.vel a))
       then Agent.x (Agent.vel a) * -1 else Agent.x (Agent.vel a)).
Proof.
  unfold Agent.frame, Agent.bounce, Agent.update. cbn.
  destruct (Qle_bool _ 0 || Qle_bool w _);
    destruct (Qle_bool _ 0 || Qle_bool h _); cbn; auto.
Qed.

Lemma agent_frame_y (w h : Q) (a : Agent.t) :
  Agent.y (Agent.pos (Agent.frame w h a))
    = Agent.y (Agent.pos a) + Agent.y (Agent.vel a) /\
  Agent.y (Agent.vel (Agent.frame w h a))
    = (if Qle_bool (Agent.y (Agent.pos a) + Agent.y (Agent.vel a)) 0
          || Qle_bool h (Agent.y (Agent.pos a) + Agent.y (Agent.vel a))
       then Agent.y (Agent.vel a) * -1 else Agent.y (Agent.vel a)).
Proof.
  unfold Agent.frame, Agent.bounce, Agent.update. cbn.
  destruct (Qle_bool _ 0 || Qle_bool w _);
    destruct (Qle_bool _ 0 || Qle_bool h _); cbn; auto.
Qed.

Lemma agent_frame_radius (w h : Q) (a : Agent.t) :
  Agent.radius (Agent.frame w h a) = Agent.radius a.
Proof.
  unfold Agent.frame, Agent.bounce, Agent.update. cbn.
  destruct (Qle_bool _ 0 || Qle_bool w _);
    destruct (Qle_bool _ 0 || Qle_bool h _); reflexivity.
Qed.

Lemma agent_frames_S (n : nat) (w h : Q) (a : Agent.t) :
  Agent.frames (S n) w h a = Agent.frame w h (Agent.frames n w h a).
Proof. reflexivity. Qed.

(** The edge test of [bounce], as a proposition. *)
Lemma edge_test (w p : Q) :
  Qle_bool p 0 || Qle_bool w p = true <-> p <= 0 \/ w <= p.
Proof.
  rewrite orb_true_iff, !Qle_bool_iff. reflexivity.
Qed.

(** One axis, one frame. *)
Lemma near_step (w s p v : Q) :
  0 < w -> Agent.near w s p v ->
  Agent.near w s (p + v)
    (if Qle_bool (p + v) 0 || Qle_bool w (p + v) then v * -1 else v).
Proof.
  intros Hw (Hs & Hv & Hp & Hlo & Hhi). unfold Agent.near.
  destruct (Qle_bool (p + v) 0 || Qle_bool w (p + v)) eqn:E.
  - apply edge_test in E.
    destruct (Qlt_le_dec p 0) as [Hneg | Hnn];
      [ pose proof (Hlo Hneg) | ];
      (destruct (Qlt_le_dec w p) as [Hbig | Hsm];
       [ pose proof (Hhi Hbig) | ]);
      destruct Hv as [Hv | Hv]; destruct E as [E | E];
      (split; [ exact Hs | ]);
      (split; [ first [ left; lra | right; lra ] | ]);
      (split; [ lra | ]); split; intros; lra.
  - assert (Hin : 0 < p + v /\ p + v < w).
    { split; apply Qnot_le_lt; intros H;
        assert (Qle_bool (p + v) 0 || Qle_bool w (p + v) = true)
          by (apply edge_test; auto); congruence. }
    split; [ exact Hs | ]. split; [ exact Hv | ].
    split; [ lra | ]. split; intros; lra.
Qed.

Lemma near_start (w p v : Q) :
  0 <= p <= w -> Agent.near w (Qabs v) p v.
Proof.
  intros Hp. unfold Agent.near.
  split; [ apply Qabs_nonneg | ].
  split.
  { destruct (Qlt_le_dec v 0) as [H | H].
    - right. rewrite Qabs_neg by lra. lra.
    - left. rewrite Qabs_pos by lra. reflexivity. }
  pose proof (Qabs_nonneg v).
  split; [ lra | ]. split; intros; lra.
Qed.

Lemma near_speed (w s p v : Q) : Agent.near w s p v -> Qabs v == s.
Proof.
  intros (Hs & [Hv | Hv] & _); rewrite Hv.
  - apply Qabs_pos, Hs.
  - rewrite Qabs_opp. apply Qabs_pos, Hs.
Qed.

Lemma agent_frames_near (n : nat) (w h sx sy : Q) (a : Agent.t) :
  0 < w -> 0 < h ->
  Agent.near w sx (Agent.x (Agent.pos a)) (Agent.x (Agent.vel a)) ->
  Agent.near h sy (Agent.y (Agent.pos a)) (Agent.y (Agent.vel a)) ->
  Agent.near w sx (Agent.x (Agent.pos (Agent.frames n w h a)))
                  (Agent.x (Agent.vel (Agent.frames n w h a))) /\
  Agent.near h sy (Agent.y (Agent.pos (Agent.frames n w h a)))
                  (Agent.y (Agent.vel (Agent.frames n w h a))) /\
  Agent.radius (Agent.frames n w h a) = Agent.radius a.
Proof.
  intros Hw Hh Hx Hy. induction n as [| n (IHx & IHy & IHr)].
  - auto.
  - rewrite agent_frames_S.
    destruct (agent_frame_x w h (Agent.frames n w h a)) as [-> ->].
    destruct (agent_frame_y w h (Agent.frames n w h a)) as [-> ->].
    rewrite agent_frame_radius.
    split; [ apply near_step; assumption | ].
    split; [ apply near_step; assumption | exact IHr ].
Qed.

(** X20. An agent that starts on the canvas never gets farther outside
    it than one step: after any number of frames its position is within
    the canvas widened by its speed on each axis; its speed on each axis
    and its radius never change. *)
Theorem agent_stays_near_canvas (n : nat) (width height : Q) (a : Agent.t) :
  0 < width -> 0 < height ->
  0 <= Agent.x (Agent.pos a) <= width ->
  0 <= Agent.y (Agent.pos a) <= height ->
  let a' := Agent.frames n width height a in
  - Qabs (Agent.x (Agent.vel a)) <= Agent.x (Agent.pos a')
    <= width + Qabs (Agent.x (Agent.vel a)) /\
  - Qabs (Agent.y (Agent.vel a)) <= Agent.y (Agent.pos a')
    <= height + Qabs (Agent.y (Agent.vel a)) /\
  Qabs (Agent.x (Agent.vel a')) == Qabs (Agent.x (Agent.vel a)) /\
  Qabs (Agent.y (Agent.vel a')) == Qabs (Agent.y (Agent.vel a)) /\
  Agent.radius a' = Agent.radius a.
Proof.
  intros Hw Hh Hx Hy. cbn zeta.
  destruct (agent_frames_near n width height
              (Qabs (Agent.x (Agent.vel a))) (Qabs (Agent.y (Agent.vel a)))
              a Hw Hh (near_start _ _ _ Hx) (near_start _ _ _ Hy))
    as (Kx & Ky & Kr).
  pose proof (near_speed _ _ _ _ Kx) as Sx.
  pose proof (near_speed _ _ _ _ Ky) as Sy.
  destruct Kx as (_ & _ & Px & _). destruct Ky as (_ & _ & Py & _).
  auto.
Qed.

Lemma agent_stays_near_canvas_witness :
  let a' := Agent.frames 5 1080 1080 agent_near_edge in
  - Qabs 0.75 <= Agent.x (Agent.pos a') <= 1080 + Qabs 0.75 /\
  - Qabs 0.5 <= Agent.y (Agent.pos a') <= 1080 + Qabs 0.5 /\
  Qabs (Agent.x (Agent.vel a')) == Qabs 0.75 /\
  Qabs (Agent.y (Agent.vel a')) == Qabs 0.5 /\
  Agent.radius a' = 8.
Proof.
  apply (agent_stays_near_canvas 5 1080 1080 agent_near_edge).
  - reflexivity.
  - reflexivity.
  - split; discriminate.
  - split; discriminate.
Defined.

(** One axis, one frame, on the lower edge. *)
Lemma stuck_step (w v0 p v : Q) :
  0 < w -> v0 < 0 -> Agent.stuck v0 p v ->
  Agent.stuck v0 (p + v)
    (if Qle_bool (p + v) 0 || Qle_bool w (p + v) then v * -1 else v).
Proof.
  intros Hw Hv0 [[Hp Hv] | [Hp Hv]]; unfold Agent.stuck.
  - assert (E : Qle_bool (p + v) 0 || Qle_bool w (p + v) = true)
      by (apply edge_test; left; lra).
    rewrite E. right. split; lra.
  - assert (E : Qle_bool (p + v) 0 || Qle_bool w (p + v) = true)
      by (apply edge_test; left; lra).
    rewrite E. left. split; lra.
Qed.

(** X21. An agent that stands exactly on the left edge and heads out
    never comes back onto the canvas: [bounce] turns it round one step
    outside, turns it again when it is back on the edge, and so on; at
    every frame its abscissa is 0 or one step to the left of it. *)
Theorem agent_stuck_on_left_edge (n : nat) (width height : Q) (a : Agent.t) :
  0 < width ->
  Agent.x (Agent.pos a) == 0 -> Agent.x (Agent.vel a) < 0 ->
  let a' := Agent.frames n width height a in
  (Agent.x (Agent.pos a') == 0 \/
   Agent.x (Agent.pos a') == Agent.x (Agent.vel a)) /\
  Agent.x (Agent.pos a') <= 0 /\
  Agent.x (Agent.pos (Agent.frames (2 * n) width height a)) == 0 /\
  Agent.x (Agent.pos (Agent.frames (2 * n + 1) width height a))
    == Agent.x (Agent.vel a).
Proof.
  intros Hw Hp Hv. cbn zeta.
  assert (H : forall k,
            Agent.stuck (Agent.x (Agent.vel a))
              (Agent.x (Agent.pos (Agent.frames k width height a)))
              (Agent.x (Agent.vel (Agent.frames k width height a)))).
  { induction k as [| k IH].
    - left. split; [ exact Hp | reflexivity ].
    - rewrite agent_frames_S.
      destruct (agent_frame_x width height
                  (Agent.frames k width height a)) as [-> ->].
      apply stuck_step; assumption. }
  assert (Heven : forall k,
            Agent.x (Agent.pos (Agent.frames (2 * k) width height a)) == 0 /\
            Agent.x (Agent.vel (Agent.frames (2 * k) width height a))
              == Agent.x (Agent.vel a)).
  { induction k as [| k [IHp IHv]].
    - split; [ exact Hp | reflexivity ].
    - replace (2 * S k)%nat with (S (S (2 * k))) by lia.
      rewrite !agent_frames_S.
      set (b := Agent.frames (2 * k) width height a) in *.
      destruct (agent_frame_x width height (Agent.frame width height b))
        as [-> ->].
      destruct (agent_frame_x width height b) as [-> ->].
      assert (E1 : Qle_bool (Agent.x (Agent.pos b) + Agent.x (Agent.vel b)) 0
                   || Qle_bool width
                        (Agent.x (Agent.pos b) + Agent.x (Agent.vel b))
                   = true) by (apply edge_test; left; lra).
      rewrite E1.
      assert (E2 : Qle_bool (Agent.x (Agent.pos b) + Agent.x (Agent.vel b)
                             + Agent.x (Agent.vel b) * -1) 0
                   || Qle_bool width
                        (Agent.x (Agent.pos b) + Agent.x (Agent.vel b)
                         + Agent.x (Agent.vel b) * -1)
                   = true) by (apply edge_test; left; lra).
      rewrite E2. split; lra. }
  split; [ | split; [ | split ] ].
  - destruct (H n) as [[H1 _] | [H1 _]]; auto.
  - destruct (H n) as [[H1 _] | [H1 _]]; lra.
  - apply Heven.
  - replace (2 * n + 1)%nat with (S (2 * n)) by lia.
    destruct (Heven n) as [H1 H2].
    rewrite agent_frames_S.
    destruct (agent_frame_x width height
                (Agent.frames (2 * n) width height a)) as [-> _].
    lra.
Qed.

Lemma agent_stuck_on_left_edge_witness :
  let a' := Agent.frames 7 1080 1080 agent_on_edge in
  (Agent.x (Agent.pos a') == 0 \/ Agent.x (Agent.pos a') == -0.5) /\
  Agent.x (Agent.pos a') <= 0 /\
  Agent.x (Agent.pos (Agent.frames (2 * 7) 1080 1080 agent_on_edge)) == 0 /\
  Agent.x (Agent.pos (Agent.frames (2 * 7 + 1) 1080 1080 agent_on_edge))
    == -0.5.
Proof.
  apply (agent_stuck_on_left_edge 7 1080 1080 agent_on_edge).
  - reflexivity.
  - reflexivity.
  - reflexivity.
Defined.

(** * A failed start of an inert manager *)

Ltac catch_noop env H :=
  match goal with
  | |- context [stopMicrophone (catch_env env) ?s] =>
      rewrite (stopMicrophone_inert (catch_env env) s H)
  end.

(** What a throwing [startMicrophone] leaves of an inert manager. *)
Lemma startMicrophone_throws_inert (env : StartEnv) (w : World)
    (m : AudioManager) (e : exn) (w' : World) (m' : AudioManager) :
  isActive m = false ->
  startMicrophone env (w, m) = (Throw e, (w', m')) ->
  isActive m' = false /\
  (initialized m = true -> initialized m' = true) /\
  (last (console w') = Some (error_start e) \/
   last (console w') = Some (error_initialize e)) /\
  (forall h, (h < length (streams w))%nat ->
     streams w' !! h = streams w !! h) /\
  prevVolume m' = prevVolume m /\
  metrics m' = metrics m.
Proof.
  intros Hact.
  unfold startMicrophone. unfold bind at 1, this at 1. cbn [snd].
  unfold bind at 1.
  assert (Hinit : exists r w1 m1,
    (if negb (initialized m) then initialize (init_env env) else ret tt) (w, m)
      = (r, (w1, m1)) /\
    streams w1 = streams w /\ isActive m1 = false /\
    prevVolume m1 = prevVolume m /\ metrics m1 = metrics m /\
    (r = Normal tt -> initialized m1 = true) /\
    (forall e', r = Throw e' ->
       initialized m = false /\
       last (console w1) = Some (error_initialize e'))).
  { destruct (initialized m) eqn:Hi; cbn [negb].
    - do 3 eexists. split; [ reflexivity | ].
      repeat split; auto; discriminate.
    - destruct (initialize_effect (init_env env) w m)
        as (r & w1 & m1 & -> & H1 & H2 & _ & _ & H5 & H6 & _ & H8 & H9).
      do 3 eexists. split; [ reflexivity | ].
      split; [ exact H1 | ]. split; [ congruence | ].
      split; [ exact H5 | ]. split; [ exact H6 | ]. split; [ exact H8 | ].
      intros e' He. destruct (H9 e' He) as (_ & Hl & _). auto. }
  destruct Hinit as (r & w1 & m1 & -> & Hss & Hact1 & Hpv & Hmet & Hok & Hko).
  destruct r as [[]|e'].
  2: { intros H. injection H as <- <- <-.
       destruct (Hko e' eq_refl) as [Hi Hl].
       split; [ exact Hact1 | ]. split; [ congruence | ].
       split; [ right; exact Hl | ].
       split; [ intros h _; rewrite Hss; reflexivity | auto ]. }
  specialize (Hok eq_refl). clear Hko.
  unfold try_catch, bind at 1.
  rewrite (stopMicrophone_inert (stop_env env) (w1, m1) Hact1).
  unfold getUserMedia, read_audioTrack, createMediaStreamSource, connect.
  assert (Hlook : forall x h,
            (h < length (streams w))%nat ->
            (streams w1 ++ [x]) !! h = streams w !! h).
  { intros x h Hlt. rewrite Hss. apply lookup_app_l. exact Hlt. }
  destruct (getUserMedia_result env) as [e0 | n].
  - js_unfold. cbn [fst snd]. first [ catch_noop env Hact1 | rewrite Hact1 ]. cbn.
    intros H. injection H as <- <- <-. cbn.
    split; [ exact Hact1 | ]. split; [ intros _; exact Hok | ].
    split; [ left; apply last_snoc | ].
    split; [ intros h _; rewrite Hss; reflexivity | auto ].
  - js_unfold. cbn [fst snd streams set_streams].
    rewrite list_lookup_middle by reflexivity. cbn [from_option id].
    destruct n as [| n]; cbn [replicate].
    + cbn. first [ catch_noop env Hact1 | rewrite Hact1 ]. cbn. intros H. injection H as <- <- <-. cbn.
      split; [ exact Hact1 | ]. split; [ intros _; exact Hok | ].
      split; [ left; apply last_snoc | ].
      split; [ intros h Hlt; apply (Hlook _ h Hlt) | auto ].
    + cbn. destruct (audioContext m1); cbn.
      * destruct (createMediaStreamSource_error env); cbn.
        -- first [ catch_noop env Hact1 | rewrite Hact1 ]. cbn. intros H. injection H as <- <- <-. cbn.
           split; [ exact Hact1 | ]. split; [ intros _; exact Hok | ].
           split; [ left; apply last_snoc | ].
           split; [ intros h Hlt; apply (Hlook _ h Hlt) | auto ].
        -- destruct (connect_error env); cbn; [ | discriminate ].
           first [ catch_noop env Hact1 | rewrite Hact1 ]. cbn. intros H. injection H as <- <- <-. cbn.
           split; [ exact Hact1 | ]. split; [ intros _; exact Hok | ].
           split; [ left; apply last_snoc | ].
           split; [ intros h Hlt; apply (Hlook _ h Hlt) | auto ].
      * first [ catch_noop env Hact1 | rewrite Hact1 ]. cbn. intros H. injection H as <- <- <-. cbn.
        split; [ exact Hact1 | ]. split; [ intros _; exact Hok | ].
        split; [ left; apply last_snoc | ].
        split; [ intros h Hlt; apply (Hlook _ h Hlt) | auto ].
Qed.

(** X22. When [startMicrophone] throws on an inert manager, whatever
    failed (initialisation, refusal of the device, a stream without audio
    track, the source node or its connection), the manager is still
    inert, it is still initialised if it was, the error was logged last,
    no existing stream was touched, and neither the stored volume nor the
    metrics changed. *)
Theorem startMicrophone_failure_inert (env : StartEnv) (st : St) (e : exn) :
  isActive (snd st) = false ->
  outcome (startMicrophone env st) = Throw e ->
  isActive (final (startMicrophone env st)) = false /\
  (initialized (snd st) = true ->
   initialized (final (startMicrophone env st)) = true) /\
  (last (console (final_world (startMicrophone env st)))
     = Some (error_start e) \/
   last (console (final_world (startMicrophone env st)))
     = Some (error_initialize e)) /\
  (forall h, (h < length (streams (fst st)))%nat ->
     streams (final_world (startMicrophone env st)) !! h
       = streams (fst st) !! h) /\
  prevVolume (final (startMicrophone env st)) = prevVolume (snd st) /\
  metrics (final (startMicrophone env st)) = metrics (snd st).
Proof.
  destruct st as [w m]. cbn [fst snd]. intros Hact Hout.
  destruct (startMicrophone env (w, m)) as [r [w' m']] eqn:Hrun.
  unfold outcome, final, final_world in *. cbn [fst snd] in *. subst r.
  exact (startMicrophone_throws_inert env w m e w' m' Hact Hrun).
Qed.

Lemma startMicrophone_failure_inert_witness :
  isActive (final (startMicrophone start_source_fails initialized_state))
    = false /\
  initialized (final (startMicrophone start_source_fails initialized_state))
    = true /\
  prevVolume (final (startMicrophone start_source_fails initialized_state))
    = prevVolume (snd initialized_state).
Proof.
  destruct (startMicrophone_failure_inert start_source_fails
              initialized_state NotSupportedError eq_refl eq_refl)
    as (H1 & H2 & _ & _ & H5 & _).
  split; [ exact H1 | ]. split; [ exact (H2 eq_refl) | exact H5 ].
Defined.

(** ** The grid of squares *)

Lemma sketch01_cell_run (rnd : nat -> Q) (w h gap : Q) (i j : nat)
    (c : Sketch01.Context2D) (k : nat) :
  Sketch01.cell rnd w h gap i j (c, k)
  = ({| Sketch01.fillStyle := Sketch01.fillStyle c;
        Sketch01.origin := Sketch01.origin c;
        Sketch01.path :=
          Sketch01.cell_path (Sketch01.origin c) w h gap i j (rnd k);
        Sketch01.paint :=
          Sketch01.paint c ++
          [Sketch01.stroke_path
             (Sketch01.cell_path (Sketch01.origin c) w h gap i j (rnd k))]
     |}, S k).
Proof.
  unfold Sketch01.cell, Sketch01.cell_path.
  destruct (negb (Qle_bool (rnd k) 0.5)); reflexivity.
Qed.

Lemma sketch01_render_paint (rnd : nat -> Q) (width height : Q)
    (c : Sketch01.Context2D) :
  let o := ((fst (Sketch01.origin c) + width * 0.15)%Q,
            (snd (Sketch01.origin c) + height * 0.15)%Q) in
  Sketch01.paint (fst (Sketch01.render rnd width height c))
  = Sketch01.paint c ++
    Sketch01.fill "white" (Sketch01.place (Sketch01.origin c) 0 0 width height)
    :: ((fun k => Sketch01.stroke_path
                    (Sketch01.cell_path o 100 100 20 (k / 5) (k mod 5)
                       (rnd k)))
        <$> seq 0 25)
  /\ snd (Sketch01.render rnd width height c) = 25%nat.
Proof.
  cbv zeta. unfold Sketch01.render. cbv zeta.
  cbn [seq fold_left].
  unfold Sketch01.translate, Sketch01.fillRect, Sketch01.set_fillStyle.
  cbn [Sketch01.paint Sketch01.origin Sketch01.fillStyle Sketch01.path].
  repeat (rewrite sketch01_cell_run;
          cbn [Sketch01.paint Sketch01.origin Sketch01.fillStyle
               Sketch01.path]).
  cbn [fst snd Sketch01.paint].
  split; [ | reflexivity ].
  repeat rewrite <- app_assoc. reflexivity.
Qed.

Lemma sketch01_index (i j : nat) :
  (i < 5)%nat -> (j < 5)%nat ->
  (5 * i + j < 25)%nat /\ ((5 * i + j) / 5 = i)%nat /\
  ((5 * i + j) mod 5 = j)%nat.
Proof.
  intros Hi Hj. split; [ lia | ].
  do 5 (destruct i as [ | i ]; [ do 5 (destruct j as [ | j ];
    [ split; reflexivity | ]); lia | ]); lia.
Qed.

Lemma sketch01_index_inv (k : nat) :
  (k < 25)%nat -> (k / 5 < 5)%nat /\ (k mod 5 < 5)%nat /\
  (k = 5 * (k / 5) + k mod 5)%nat.
Proof.
  intros Hk. split; [ | split ].
  - apply Nat.Div0.div_lt_upper_bound. lia.
  - apply Nat.mod_upper_bound. lia.
  - apply Nat.div_mod_eq.
Qed.

Lemma sketch01_column (i : nat) :
  (i < 5)%nat ->
  (0 <= inject_Z (Z.of_nat i) <= 4)%Q.
Proof.
  intros Hi. split.
  - change 0%Q with (inject_Z 0). rewrite <- Zle_Qle. lia.
  - change 4%Q with (inject_Z 4). rewrite <- Zle_Qle. lia.
Qed.

Lemma sketch01_next_column (i i' : nat) :
  (i < i')%nat ->
  (inject_Z (Z.of_nat i) + 1 <= inject_Z (Z.of_nat i'))%Q.
Proof.
  intros Hi. change 1%Q with (inject_Z 1). rewrite <- inject_Z_plus.
  rewrite <- Zle_Qle. lia.
Qed.

(** A rectangle of the path of a cell lies in the square of the cell. *)
Lemma sketch01_cell_path_in (o : Q * Q) (i j : nat) (r : Q)
    (x : Sketch01.Rect) :
  x ∈ Sketch01.cell_path o 100 100 20 i j r ->
  (fst o + 100 + 120 * inject_Z (Z.of_nat i) <= Sketch01.rect_x x /\
   Sketch01.rect_x x + Sketch01.rect_w x
     <= fst o + 200 + 120 * inject_Z (Z.of_nat i) /\
   snd o + 100 + 120 * inject_Z (Z.of_nat j) <= Sketch01.rect_y x /\
   Sketch01.rect_y x + Sketch01.rect_h x
     <= snd o + 200 + 120 * inject_Z (Z.of_nat j))%Q.
Proof.
  unfold Sketch01.cell_path. cbv zeta.
  destruct (negb (Qle_bool r 0.5)); intros Hx.
  - apply elem_of_cons in Hx as [ -> | Hx ];
      [ | apply list_elem_of_singleton in Hx as -> ];
      unfold Sketch01.place;
      cbn [Sketch01.rect_x Sketch01.rect_y Sketch01.rect_w Sketch01.rect_h];
      repeat split; lra.
  - apply list_elem_of_singleton in Hx as ->.
    unfold Sketch01.place;
      cbn [Sketch01.rect_x Sketch01.rect_y Sketch01.rect_w Sketch01.rect_h];
      repeat split; lra.
Qed.

(** What a render paints after what was there: the white background, then
    the 25 cells, column by column. *)
Lemma sketch01_render_lookup (rnd : nat -> Q) (width height : Q)
    (c : Sketch01.Context2D) :
  let o := ((fst (Sketch01.origin c) + width * 0.15)%Q,
            (snd (Sketch01.origin c) + height * 0.15)%Q) in
  let p := Sketch01.paint (fst (Sketch01.render rnd width height c)) in
  length p = (length (Sketch01.paint c) + 26)%nat /\
  take (length (Sketch01.paint c)) p = Sketch01.paint c /\
  p !! length (Sketch01.paint c)
    = Some (Sketch01.fill "white"
              (Sketch01.place (Sketch01.origin c) 0 0 width height)) /\
  forall k, (k < 25)%nat ->
    p !! (length (Sketch01.paint c) + 1 + k)%nat
    = Some (Sketch01.stroke_path
              (Sketch01.cell_path o 100 100 20 (k / 5) (k mod 5) (rnd k))).
Proof.
  cbv zeta.
  destruct (sketch01_render_paint rnd width height c) as [-> _].
  split; [ | split; [ | split ] ].
  - rewrite length_app. cbn [length]. rewrite length_fmap, length_seq. lia.
  - apply take_app_length.
  - apply list_lookup_middle. reflexivity.
  - intros k Hk.
    rewrite lookup_app_r by lia.
    replace (length (Sketch01.paint c) + 1 + k - length (Sketch01.paint c))%nat
      with (S k) by lia.
    rewrite lookup_cons_ne_0 by lia. cbn [Nat.pred].
    rewrite list_lookup_fmap, lookup_seq_lt by lia. reflexivity.
Qed.

(** X23. One render of the grid paints, after what the canvas held, the
    white background and then 25 paths, column by column, with one random
    draw each: the path of column [i] and row [j] is the square of side
    100 at [(0.15 width + 100 + 120 i, 0.15 height + 100 + 120 j)],
    followed, exactly when the draw exceeded one half, by the square of
    side 84 set 8 inside it. *)
Theorem sketch01_render_draws (rnd : nat -> Q) (width height : Q)
    (c : Sketch01.Context2D) (i j : nat) :
  (i < 5)%nat -> (j < 5)%nat ->
  let p := Sketch01.paint (fst (Sketch01.render rnd width height c)) in
  let n := (5 * i + j)%nat in
  length p = (length (Sketch01.paint c) + 26)%nat /\
  take (length (Sketch01.paint c)) p = Sketch01.paint c /\
  p !! length (Sketch01.paint c)
    = Some (Sketch01.fill "white"
              (Sketch01.place (Sketch01.origin c) 0 0 width height)) /\
  snd (Sketch01.render rnd width height c) = 25%nat /\
  exists square rest,
    p !! (length (Sketch01.paint c) + 1 + n)%nat
      = Some (Sketch01.stroke_path (square :: rest)) /\
    (Sketch01.rect_x square
       == fst (Sketch01.origin c) + 0.15 * width + 100
          + 120 * inject_Z (Z.of_nat i))%Q /\
    (Sketch01.rect_y square
       == snd (Sketch01.origin c) + 0.15 * height + 100
          + 120 * inject_Z (Z.of_nat j))%Q /\
    (Sketch01.rect_w square == 100)%Q /\
    (Sketch01.rect_h square == 100)%Q /\
    ((rnd n <= 0.5)%Q -> rest = []) /\
    ((0.5 < rnd n)%Q ->
     exists inner,
       rest = [inner] /\
       (Sketch01.rect_x inner == Sketch01.rect_x square + 8)%Q /\
       (Sketch01.rect_y inner == Sketch01.rect_y square + 8)%Q /\
       (Sketch01.rect_w inner == 84)%Q /\
       (Sketch01.rect_h inner == 84)%Q).
Proof.
  intros Hi Hj. cbv zeta.
  destruct (sketch01_index i j Hi Hj) as (Hn & Hdiv & Hmod).
  destruct (sketch01_render_lookup rnd width height c)
    as (Hlen & Htake & Hfill & Hcell).
  split; [ exact Hlen | ]. split; [ exact Htake | ].
  split; [ exact Hfill | ].
  split; [ apply sketch01_render_paint | ].
  specialize (Hcell _ Hn). rewrite Hdiv, Hmod in Hcell.
  unfold Sketch01.cell_path in Hcell. cbv zeta in Hcell.
  eexists _, _. split; [ exact Hcell | ].
  unfold Sketch01.place.
  cbn [Sketch01.rect_x Sketch01.rect_y Sketch01.rect_w Sketch01.rect_h
       fst snd].
  split; [ ring | ]. split; [ ring | ].
  split; [ reflexivity | ]. split; [ reflexivity | ].
  split.
  - intros Hle. apply Qle_bool_iff in Hle. rewrite Hle. reflexivity.
  - intros Hlt.
    destruct (Qle_bool (rnd (5 * i + j)%nat) 0.5) eqn:E.
    + apply Qle_bool_iff in E. lra.
    + cbn [negb]. eexists. split; [ reflexivity | ].
      cbn [Sketch01.rect_x Sketch01.rect_y Sketch01.rect_w Sketch01.rect_h].
      repeat split; ring.
Qed.

Lemma sketch01_render_draws_witness :
  length (Sketch01.paint
       (fst (Sketch01.render (fun k => if Nat.even k then 0.75 else 0.25)%Q
               1080 1080 Sketch01.new_context))) = 26%nat /\
  exists square rest,
    (Sketch01.paint
       (fst (Sketch01.render (fun k => if Nat.even k then 0.75 else 0.25)%Q
               1080 1080 Sketch01.new_context))) !! 15%nat = Some (Sketch01.stroke_path (square :: rest)) /\
    (Sketch01.rect_x square == 502)%Q /\
    (Sketch01.rect_y square == 742)%Q /\
    length rest = 1%nat.
Proof.
  cbv zeta.
  destruct (sketch01_render_draws
              (fun k => if Nat.even k then 0.75 else 0.25)%Q
              1080 1080 Sketch01.new_context 2 4)
    as (Hlen & _ & _ & _ & square & rest & Hp & Hx & Hy & _ & _ & _ & Hin).
  - lia.
  - lia.
  - split; [ exact Hlen | ].
    exists square, rest. split; [ exact Hp | ].
    split; [ rewrite Hx; reflexivity | ].
    split; [ rewrite Hy; reflexivity | ].
    destruct Hin as (inner & -> & _); reflexivity.
Defined.

(** X24. On a context with the identity transform, everything a render
    paints lies on the canvas exactly when the canvas is at least 800 wide
    and 800 high: the grid ends 680 after the 15 % margin. *)
Theorem sketch01_grid_fits_canvas (rnd : nat -> Q) (width height : Q)
    (c : Sketch01.Context2D) :
  Sketch01.origin c = (0, 0)%Q ->
  ((800 <= width /\ 800 <= height)%Q <->
   forall p r,
     p ∈ drop (length (Sketch01.paint c))
           (Sketch01.paint (fst (Sketch01.render rnd width height c))) ->
     r ∈ Sketch01.rects p -> Sketch01.inside width height r).
Proof.
  intros Ho.
  destruct (sketch01_render_paint rnd width height c) as [-> _].
  rewrite drop_app_length, Ho. cbn [fst snd]. split.
  - intros [Hw Hh] p r Hp Hr.
    apply elem_of_cons in Hp as [ -> | Hp ].
    + cbn [Sketch01.rects] in Hr. apply list_elem_of_singleton in Hr as ->.
      unfold Sketch01.inside, Sketch01.place.
      cbn [Sketch01.rect_x Sketch01.rect_y Sketch01.rect_w Sketch01.rect_h
           fst snd].
      repeat split; lra.
    + apply list_elem_of_fmap in Hp as (k & -> & Hk).
      apply elem_of_seq in Hk.
      destruct (sketch01_index_inv k) as (Hi & Hj & _); [ lia | ].
      cbn [Sketch01.rects] in Hr.
      apply sketch01_cell_path_in in Hr. cbn [fst snd] in Hr.
      pose proof (sketch01_column _ Hi) as Hci.
      pose proof (sketch01_column _ Hj) as Hcj.
      unfold Sketch01.inside. repeat split; lra.
  - intros Hall.
    specialize (Hall (Sketch01.stroke_path
                        (Sketch01.cell_path
                           ((0 + width * 0.15)%Q, (0 + height * 0.15)%Q)
                           100 100 20 4 4 (rnd 24%nat)))
                  (Sketch01.place
                     ((0 + width * 0.15)%Q, (0 + height * 0.15)%Q)
                     (100 + (100 + 20) * inject_Z (Z.of_nat 4))
                     (100 + (100 + 20) * inject_Z (Z.of_nat 4)) 100 100)).
    destruct Hall as (_ & Hx & _ & Hy).
    + apply elem_of_cons. right.
      apply list_elem_of_fmap. exists 24%nat. split; [ reflexivity | ].
      apply elem_of_seq. lia.
    + cbn [Sketch01.rects]. unfold Sketch01.cell_path. cbv zeta.
      apply elem_of_cons. left. reflexivity.
    + unfold Sketch01.place in Hx, Hy.
      cbn [Sketch01.rect_x Sketch01.rect_y Sketch01.rect_w Sketch01.rect_h
           fst snd] in Hx, Hy.
      change (inject_Z (Z.of_nat 4)) with 4%Q in Hx, Hy.
      split; lra.
Qed.

Lemma sketch01_grid_fits_canvas_witness :
  Forall (fun p => Forall (Sketch01.inside 1080 1080) (Sketch01.rects p))
    (drop (length (Sketch01.paint Sketch01.new_context))
       (Sketch01.paint (fst (Sketch01.render (fun _ => 0.75%Q) 1080 1080
                               Sketch01.new_context)))).
Proof.
  assert (Ho : Sketch01.origin Sketch01.new_context = (0, 0)%Q)
    by reflexivity.
  assert (Hsize : (800 <= 1080 /\ 800 <= 1080)%Q) by (split; lra).
  apply Forall_forall. intros p Hp.
  apply Forall_forall. intros r Hr.
  exact (proj1 (sketch01_grid_fits_canvas (fun _ => 0.75%Q) 1080 1080
                  Sketch01.new_context Ho) Hsize p r Hp Hr).
Defined.

(** X25. The squares of a render do not touch: a rectangle of the path of
    one cell and a rectangle of the path of another are at least 20 apart
    along one axis. *)
Theorem sketch01_cells_apart (rnd : nat -> Q) (width height : Q)
    (c : Sketch01.Context2D) (n n' : nat) (rs rs' : list Sketch01.Rect)
    (r r' : Sketch01.Rect) :
  let p := Sketch01.paint (fst (Sketch01.render rnd width height c)) in
  (n < 25)%nat -> (n' < 25)%nat -> n <> n' ->
  p !! (length (Sketch01.paint c) + 1 + n)%nat
    = Some (Sketch01.stroke_path rs) ->
  p !! (length (Sketch01.paint c) + 1 + n')%nat
    = Some (Sketch01.stroke_path rs') ->
  r ∈ rs -> r' ∈ rs' -> Sketch01.apart 20 r r'.
Proof.
  cbv zeta. intros Hn Hn' Hne Hp Hp' Hr Hr'.
  destruct (sketch01_render_lookup rnd width height c)
    as (_ & _ & _ & Hcell).
  pose proof (Hcell _ Hn) as Hc. pose proof (Hcell _ Hn') as Hc'.
  destruct (sketch01_index_inv n Hn) as (_ & _ & En).
  destruct (sketch01_index_inv n' Hn') as (_ & _ & En').
  clear Hcell. revert Hc Hc' En En'.
  generalize (n / 5)%nat (n mod 5)%nat (n' / 5)%nat (n' mod 5)%nat.
  intros i j i' j' Hc Hc' En En'.
  rewrite Hc in Hp. rewrite Hc' in Hp'.
  injection Hp as <-. injection Hp' as <-.
  apply sketch01_cell_path_in in Hr, Hr'. cbn [fst snd] in Hr, Hr'.
  unfold Sketch01.apart.
  destruct (Nat.lt_total i i') as [ H | [ H | H ] ].
  - apply sketch01_next_column in H. left. lra.
  - destruct (Nat.lt_total j j') as [ H' | [ H' | H' ] ].
    + apply sketch01_next_column in H'. right; right; left. lra.
    + exfalso. apply Hne. rewrite En, En', H, H'. reflexivity.
    + apply sketch01_next_column in H'. right; right; right. lra.
  - apply sketch01_next_column in H. right; left. lra.
Qed.

Lemma sketch01_cells_apart_witness :
  (Sketch01.paint
     (fst (Sketch01.render (fun _ => 0.75%Q) 1080 1080
             Sketch01.new_context))) !! 1%nat
    = Some (Sketch01.stroke_path
              (Sketch01.cell_path ((0 + 1080 * 0.15)%Q, (0 + 1080 * 0.15)%Q)
                 100 100 20 0 0 0.75)) /\
  (Sketch01.paint
     (fst (Sketch01.render (fun _ => 0.75%Q) 1080 1080
             Sketch01.new_context))) !! 2%nat
    = Some (Sketch01.stroke_path
              (Sketch01.cell_path ((0 + 1080 * 0.15)%Q, (0 + 1080 * 0.15)%Q)
                 100 100 20 0 1 0.75)) /\
  Forall (fun r =>
            Forall (Sketch01.apart 20 r)
              (Sketch01.cell_path ((0 + 1080 * 0.15)%Q, (0 + 1080 * 0.15)%Q)
                 100 100 20 0 1 0.75))
    (Sketch01.cell_path ((0 + 1080 * 0.15)%Q, (0 + 1080 * 0.15)%Q)
       100 100 20 0 0 0.75).
Proof.
  cbv zeta.
  destruct (sketch01_render_lookup (fun _ => 0.75%Q) 1080 1080
              Sketch01.new_context) as (_ & _ & _ & Hcell).
  assert (H0 : (0 < 25)%nat) by lia.
  assert (H1 : (1 < 25)%nat) by lia.
  assert (Hne : 0%nat <> 1%nat) by lia.
  pose proof (Hcell 0%nat H0) as Hp.
  pose proof (Hcell 1%nat H1) as Hp'.
  clear Hcell.
  change (length (Sketch01.paint Sketch01.new_context) + 1 + 0)%nat
    with 1%nat in Hp.
  change (length (Sketch01.paint Sketch01.new_context) + 1 + 1)%nat
    with 2%nat in Hp'.
  change (0 / 5)%nat with 0%nat in Hp, Hp'.
  change (0 mod 5)%nat with 0%nat in Hp.
  change (1 mod 5)%nat with 1%nat in Hp'.
  change (Sketch01.origin Sketch01.new_context) with (0, 0)%Q in Hp, Hp'.
  cbn [fst snd] in Hp, Hp'.
  change (1 / 5)%nat with 0%nat in Hp'.
  split; [ exact Hp | ]. split; [ exact Hp' | ].
  apply Forall_forall. intros r Hr.
  apply Forall_forall. intros r' Hr'.
  exact (sketch01_cells_apart (fun _ => 0.75%Q) 1080 1080
           Sketch01.new_context 0 1 _ _ r r' H0 H1 Hne Hp Hp' Hr Hr').
Defined.

(** * The smoothed volume in double precision *)

(** The constants of the smoothing, by their bits. *)
Lemma double_constants :
  Double.lit_0_8 = Double.d0_8 /\
  Double.sub (Double.of_Z 1) Double.d0_8 = Double.d0_19999999999999996 /\
  Double.div (Double.of_Z 2) (Double.of_Z 10) = Double.d0_2 /\
  Double.div (Double.of_Z 6) (Double.of_Z 10) = Double.d0_6 /\
  Double.div (Double.of_Z 12) (Double.of_Z 100) = Double.d0_12.
Proof. vm_compute. repeat split. Qed.

(** [Double.session] has the flags, the references and the window of the
    state [startMicrophone] leaves on a new manager, and its numbers are
    the constructor's. *)
Lemma session_as_started (now : Z) :
  let m := snd (started_state now) in
  let t := snd (Double.session configured_analyser_node now) in
  Double.initialized t = initialized m /\
  Double.isActive t = isActive m /\
  Double.audioContext t = audioContext m /\
  Double.analyser t = analyser m /\
  Double.microphone t = microphone m /\
  Double.stream t = stream m /\
  Double.lastUpdate (Double.metrics t) = lastUpdate (metrics m) /\
  Double.updateInterval (Double.metrics t) = updateInterval (metrics m) /\
  Double.sampleCount (Double.metrics t) = sampleCount (metrics m) /\
  Double.prevVolume t = Double.of_Z 0 /\ prevVolume m = 0%Q /\
  Double.volumeSmoothing t = Double.d0_8 /\ volumeSmoothing m = 0.8%Q.
Proof. cbv zeta. vm_compute. repeat split. Qed.

(** What [getAudioData] does on an active session. *)
Lemma getAudioData_double_active (env : FrameEnv)
    (out : list Double.console_msg) (t : Double.AudioManager)
    (a : AnalyserNode) :
  Double.isActive t = true -> Double.analyser t = Some a ->
  exists d out' t',
    Double.getAudioData env (out, t) = (d, (out', t')) /\
    Double.volume d
      = Double.add
          (Double.mul (Double.prevVolume t) (Double.volumeSmoothing t))
          (Double.mul (Double.rawVolume_of (snapshot a env))
             (Double.sub (Double.of_Z 1) (Double.volumeSmoothing t))) /\
    Double.frequencyData d = Some (snapshot a env) /\
    Double.metrics_field d = Some (Double.metrics t') /\
    Double.prevVolume t' = Double.volume d /\
    Double.volumeSmoothing t' = Double.volumeSmoothing t /\
    Double.isActive t' = true /\
    Double.analyser t' = Some a.
Proof.
  intros Hact Han. unfold Double.getAudioData. rewrite Hact, Han.
  fold (snapshot a env). cbv zeta.
  unfold Double.updateMetrics. cbv zeta.
  cbn [Double.metrics Double.set_prevVolume Double.prevVolume
       Double.lastUpdate Double.updateInterval Double.sampleCount
       Double.volumeSum Double.peakVolume Double.averageVolume
       Double.isActive].
  match goal with |- context [Z.geb ?x ?y] => destruct (Z.geb x y) end;
    (do 3 eexists; split; [ reflexivity | ];
     cbn [Double.volume Double.frequencyData Double.metrics_field
          Double.set_metrics Double.set_prevVolume Double.prevVolume
          Double.volumeSmoothing Double.isActive Double.analyser
          Double.metrics];
     repeat split; assumption).
Qed.




(** ** Constant input in double precision *)

Lemma pow08_le (k m : nat) : 0.8 ^ Z.of_nat (k + m) <= 0.8 ^ Z.of_nat k.
Proof.
  induction m as [| m IH].
  - rewrite Nat.add_0_r. apply Qle_refl.
  - rewrite Nat.add_succ_r, pow08_S.
    pose proof (pow08_pos (k + m)) as Hpos. lra.
Qed.

(** The frames of a session with constant raw volume 0.6 return the
    iterates of the smoothing step. *)
Lemma frames_double_geometric (envs : list FrameEnv) (a : AnalyserNode) :
  Forall (fun env => Double.rawVolume_of (snapshot a env) = Double.d0_6)
    envs ->
  forall (out : list Double.console_msg) (t : Double.AudioManager),
    Double.isActive t = true -> Double.analyser t = Some a ->
    Double.volumeSmoothing t = Double.d0_8 ->
    length (fst (Double.getAudioData_frames envs (out, t))) = length envs /\
    forall k d,
      fst (Double.getAudioData_frames envs (out, t)) !! k = Some d ->
      Double.volume d
      = Nat.iter (S k)
          (fun prevVolume =>
             Double.add (Double.mul prevVolume Double.d0_8)
               (Double.mul Double.d0_6 Double.d0_19999999999999996))
          (Double.prevVolume t).
Proof.
  induction 1 as [| env envs Hraw _ IH]; intros out t Hact Han Hs.
  - split; [ reflexivity | ]. intros k d H. discriminate H.
  - cbn [Double.getAudioData_frames].
    destruct (getAudioData_double_active env out t a Hact Han)
      as (d0 & out' & t' & -> & Hv & _ & _ & Hp & Hs' & Hact' & Han').
    assert (Hs2 : Double.volumeSmoothing t' = Double.d0_8) by congruence.
    destruct (IH out' t' Hact' Han' Hs2) as [Hlen Hk].
    destruct (Double.getAudioData_frames envs (out', t')) as [ds s'].
    cbn [fst length] in *. split; [ rewrite Hlen; reflexivity | ].
    assert (Hv0 : Double.volume d0
                  = Double.add (Double.mul (Double.prevVolume t) Double.d0_8)
                      (Double.mul Double.d0_6
                         Double.d0_19999999999999996)).
    { rewrite Hv, Hraw, Hs.
      destruct double_constants as (_ & -> & _). reflexivity. }
    intros [| k] d H.
    + injection H as <-. exact Hv0.
    + rewrite (Hk k d H), Hp, Hv0. symmetry.
      exact (Nat.iter_succ_r (S k) _ (Double.prevVolume t)).
Qed.

Lemma geometric_S (n : nat) :
  Double.geometric (S n)
  = Double.add (Double.mul (Double.geometric n) Double.d0_8)
      (Double.mul Double.d0_6 Double.d0_19999999999999996).
Proof. reflexivity. Qed.

Lemma geometric_ok_spec (n : nat) :
  forall k,
    Double.geometric_ok n k (Double.geometric k) = true ->
    forall j,
      (j < n)%nat ->
      Double.to_Q (Double.geometric (S (k + j))) < 0.6 /\
      Qabs (Double.to_Q (Double.geometric (S (k + j)))
            - 0.6 * (1 - 0.8 ^ Z.of_nat (S (k + j))))
        <= (3 # 10000000000000000) /\
      ((S (k + j) <= 158)%nat ->
       Double.to_Q (Double.geometric (k + j))
       < Double.to_Q (Double.geometric (S (k + j)))).
Proof.
  induction n as [| n IH]; intros k Hok j Hj; [ lia | ].
  cbn [Double.geometric_ok] in Hok. cbv zeta in Hok.
  rewrite <- geometric_S in Hok.
  apply andb_prop in Hok as [Hok Hrest].
  apply andb_prop in Hok as [Hok H3].
  apply andb_prop in Hok as [H1 H2].
  destruct j as [| j].
  - rewrite Nat.add_0_r. split; [ | split ].
    + apply Qnot_le_lt. intros Hle. apply Qle_bool_iff in Hle.
      rewrite Hle in H1. discriminate H1.
    + apply Qle_bool_iff. exact H2.
    + intros Hle. apply Nat.leb_le in Hle. rewrite Hle in H3.
      apply Qnot_le_lt. intros Hq. apply Qle_bool_iff in Hq.
      rewrite Hq in H3. discriminate H3.
  - replace (k + S j)%nat with (S k + j)%nat by lia.
    apply (IH (S k) Hrest j). lia.
Qed.

(** The first 158 iterates, checked one after the other. *)
Lemma geometric_checked :
  Double.geometric_ok 158 0 (Double.geometric 0) = true.
Proof. vm_compute. reflexivity. Qed.

Lemma geometric_first (j : nat) :
  (j < 158)%nat ->
  Double.to_Q (Double.geometric (S j)) < 0.6 /\
  Qabs (Double.to_Q (Double.geometric (S j))
        - 0.6 * (1 - 0.8 ^ Z.of_nat (S j)))
    <= (3 # 10000000000000000) /\
  Double.to_Q (Double.geometric j) < Double.to_Q (Double.geometric (S j)).
Proof.
  intros Hj.
  destruct (geometric_ok_spec 158 0 geometric_checked j Hj)
    as (H1 & H2 & H3).
  cbn [Nat.add] in *. split; [ exact H1 | ]. split; [ exact H2 | ].
  apply H3. lia.
Qed.

(** From frame 158 on the step maps 0.5999999999999998 to itself. *)
Lemma geometric_stall (m : nat) :
  Double.geometric (158 + m) = Double.d0_5999999999999998.
Proof.
  induction m as [| m IH].
  - vm_compute. reflexivity.
  - rewrite Nat.add_succ_r, geometric_S, IH. vm_compute. reflexivity.
Qed.

Lemma geometric_stalled_close (m : nat) :
  Qabs (Double.to_Q Double.d0_5999999999999998
        - 0.6 * (1 - 0.8 ^ Z.of_nat (158 + m))) <= (3 # 10000000000000000).
Proof.
  pose proof (pow08_le 158 m) as Hle.
  pose proof (pow08_pos (158 + m)) as Hpos.
  assert (H158 : 0.6 * 0.8 ^ Z.of_nat 158 <= (3 # 10000000000000000))
    by (apply Qle_bool_iff; vm_compute; reflexivity).
  assert (Hv : 0.6 - (3 # 10000000000000000) <= Double.to_Q Double.d0_5999999999999998
               /\ Double.to_Q Double.d0_5999999999999998 <= 0.6 - (2 # 10000000000000000))
    by (split; apply Qle_bool_iff; vm_compute; reflexivity).
  revert Hle Hpos H158 Hv.
  generalize (0.8 ^ Z.of_nat (158 + m)) (0.8 ^ Z.of_nat 158)
    (Double.to_Q Double.d0_5999999999999998).
  intros x c v Hle Hpos H158 [Hv1 Hv2].
  apply Qabs_Qle_condition. split; lra.
Qed.

(** C9, as the code computes it.  From smoothed volume 0 with smoothing
    factor 0.8, over frames whose raw volume is constantly 0.6, the [n]-th
    call returns a value below 0.6 and within 3e-16 of
    [0.6 * (1 - 0.8^n)]; the values increase strictly up to frame 158,
    where they reach 0.5999999999999998, and never move again. *)
Theorem constant_input_double (envs : list FrameEnv)
    (out : list Double.console_msg) (t : Double.AudioManager)
    (a : AnalyserNode) :
  Double.isActive t = true -> Double.analyser t = Some a ->
  Double.volumeSmoothing t = Double.volumeSmoothing Double.constructor ->
  Double.prevVolume t = Double.prevVolume Double.constructor ->
  Forall (fun env => Double.rawVolume_of (snapshot a env) = Double.d0_6)
    envs ->
  let ds := fst (Double.getAudioData_frames envs (out, t)) in
  length ds = length envs /\
  forall k d,
    ds !! k = Some d ->
    Double.to_Q (Double.volume d) < 0.6 /\
    Qabs (Double.to_Q (Double.volume d) - 0.6 * (1 - 0.8 ^ Z.of_nat (S k)))
      <= (3 # 10000000000000000) /\
    ((157 <= k)%nat -> Double.volume d = Double.d0_5999999999999998) /\
    (forall d',
       ds !! S k = Some d' ->
       ((k < 157)%nat ->
        Double.to_Q (Double.volume d) < Double.to_Q (Double.volume d')) /\
       ((157 <= k)%nat -> Double.volume d' = Double.volume d)).
Proof.
  intros Hact Han Hs Hp Hraw. cbv zeta.
  assert (Hs8 : Double.volumeSmoothing t = Double.d0_8).
  { rewrite Hs. apply double_constants. }
  destruct (frames_double_geometric envs a Hraw out t Hact Han Hs8)
    as [Hlen Hk].
  split; [ exact Hlen | ].
  assert (Hgeo : forall k d,
             fst (Double.getAudioData_frames envs (out, t)) !! k = Some d ->
             Double.volume d = Double.geometric (S k)).
  { intros k d H. rewrite (Hk k d H), Hp. reflexivity. }
  assert (Hlate : forall k, (157 <= k)%nat ->
             Double.geometric (S k) = Double.d0_5999999999999998).
  { intros k Hge. replace (S k) with (158 + (k - 157))%nat by lia.
    apply geometric_stall. }
  intros k d H. rewrite (Hgeo k d H).
  destruct (le_lt_dec 157 k) as [Hge | Hlt].
  - split.
    { rewrite (Hlate k Hge). vm_compute. reflexivity. }
    split.
    { rewrite (Hlate k Hge).
      replace (S k) with (158 + (k - 157))%nat by lia.
      apply geometric_stalled_close. }
    split; [ intros _; apply Hlate; exact Hge | ].
    intros d' H'. rewrite (Hgeo _ d' H').
    split; [ intros Hc; lia | ].
    intros _. rewrite (Hlate k Hge). apply Hlate. lia.
  - destruct (geometric_first k) as (H1 & H2 & _); [ lia | ].
    destruct (geometric_first (S k)) as (_ & _ & H3); [ lia | ].
    split; [ exact H1 | ]. split; [ exact H2 | ].
    split; [ intros Hc; lia | ].
    intros d' H'. rewrite (Hgeo _ d' H').
    split; [ intros _; exact H3 | intros Hc; lia ].
Qed.

Lemma frames_153_raw (n : nat) :
  Forall (fun env =>
            Double.rawVolume_of (snapshot configured_analyser_node env)
            = Double.d0_6)
    (frames_153 n).
Proof.
  unfold frames_153. apply Forall_forall. intros env Hin.
  apply list_elem_of_fmap in Hin as (i & -> & _).
  vm_compute. reflexivity.
Qed.

Lemma constant_input_double_witness :
  let ds :=
    fst (Double.getAudioData_frames (frames_153 10)
           (Double.session configured_analyser_node 5000)) in
  length ds = 10%nat /\
  forall k d,
    ds !! k = Some d ->
    Double.to_Q (Double.volume d) < 0.6 /\
    Qabs (Double.to_Q (Double.volume d) - 0.6 * (1 - 0.8 ^ Z.of_nat (S k)))
      <= (3 # 10000000000000000).
Proof.
  cbv zeta.
  destruct (constant_input_double (frames_153 10) []
              (snd (Double.session configured_analyser_node 5000))
              configured_analyser_node eq_refl eq_refl eq_refl eq_refl
              (frames_153_raw 10))
    as [Hlen Hk].
  split; [ exact Hlen | ].
  intros k d H. destruct (Hk k d H) as (H1 & H2 & _).
  split; [ exact H1 | exact H2 ].
Defined.

(** C9, as the specification words it, fails.  With every bin at 153 the
    first call returns 0.11999999999999997, which is not
    [0.6 * (1 - 0.8)], and calls 158 and 159 both return
    0.5999999999999998: the values are not strictly increasing. *)
Lemma constant_input_not_geometric :
  let ds :=
    fst (Double.getAudioData_frames (frames_153 160)
           (Double.session configured_analyser_node 5000)) in
  Double.volume <$> ds !! 0%nat = Some Double.d0_11999999999999997 /\
  ~ Double.to_Q Double.d0_11999999999999997 == 0.6 * (1 - 0.8 ^ 1) /\
  Double.volume <$> ds !! 157%nat = Some Double.d0_5999999999999998 /\
  Double.volume <$> ds !! 158%nat = Some Double.d0_5999999999999998.
Proof.
  cbv zeta.
  destruct (frames_double_geometric (frames_153 160) configured_analyser_node
              (frames_153_raw 160) []
              (snd (Double.session configured_analyser_node 5000))
              eq_refl eq_refl eq_refl) as [Hlen Hk].
  change ([], snd (Double.session configured_analyser_node 5000))
    with (Double.session configured_analyser_node 5000) in Hlen, Hk.
  assert (Hl : length (frames_153 160) = 160%nat) by reflexivity.
  rewrite Hl in Hlen. clear Hl.
  assert (Hat : forall k, (k < 160)%nat ->
            Double.volume
              <$> fst (Double.getAudioData_frames (frames_153 160)
                         (Double.session configured_analyser_node 5000))
                  !! k
            = Some (Double.geometric (S k))).
  { intros k Hlt.
    destruct (lookup_lt_is_Some_2
                (fst (Double.getAudioData_frames (frames_153 160)
                        (Double.session configured_analyser_node 5000)))
                k) as [d Hd]; [ rewrite Hlen; exact Hlt | ].
    rewrite Hd. cbn [fmap option_fmap option_map]. f_equal.
    exact (Hk k d Hd). }
  split; [ rewrite (Hat 0%nat) by lia; vm_compute; reflexivity | ].
  split; [ intros H; apply Qeq_bool_iff in H; vm_compute in H;
           discriminate H | ].
  split; [ rewrite (Hat 157%nat) by lia | rewrite (Hat 158%nat) by lia ].
  - exact (f_equal Some (geometric_stall 0)).
  - exact (f_equal Some (geometric_stall 1)).
Qed.
